(** * A11Y-scanner: the scan pipeline, the HTTP endpoint and the impact filter

    A shallow embedding of
      - src/lib/scanner/scanWithAxe.ts  (normalizeUrl, toScanResponse, scanWithAxe)
      - src/lib/types.ts                (AxeImpact, AxeNode, AxeViolation, ScanResponse)
      - src/app/api/scan/route.ts       (POST)
      - src/components/ScanForm.tsx     (IMPACT_RANK, passesImpact, filteredViolations)

    JavaScript strings are sequences of UTF-16 code units.  Calls into
    Playwright, Node and the clock are answered by a [Host]; every awaited
    call may reject, and what a handler reads of a thrown value is its
    [message] and [stack]. *)

From Stdlib Require Import List NArith ZArith Bool Lia String Ascii Permutation.
Import ListNotations.

Set Implicit Arguments.

(* ===================================================================== *)
(** ** JavaScript strings *)
(* ===================================================================== *)

Definition code_unit := N.
Definition jsstring := list code_unit.

(** An ASCII literal of the source as a sequence of code units. *)
Definition lit (s : string) : jsstring :=
  map N_of_ascii (list_ascii_of_string s).

Definition jsstring_eqb (a b : jsstring) : bool :=
  if list_eq_dec N.eq_dec a b then true else false.

(** ECMAScript WhiteSpace and LineTerminator code points, the set that
    String.prototype.trim strips: TAB, LF, VT, FF, CR, SP, NBSP, the
    Unicode space separators (Zs), LS, PS and the BOM. *)
Definition isStrWhiteSpaceChar (c : code_unit) : bool :=
  ((9 <=? c) && (c <=? 13)                  (* TAB LF VT FF CR *)
   || (c =? 32) || (c =? 160)               (* SP, NBSP *)
   || (c =? 5760)                           (* U+1680 *)
   || ((8192 <=? c) && (c <=? 8202))        (* U+2000 .. U+200A *)
   || (c =? 8232) || (c =? 8233)            (* LS, PS *)
   || (c =? 8239) || (c =? 8287)            (* U+202F, U+205F *)
   || (c =? 12288) || (c =? 65279))%N.      (* U+3000, BOM *)

Fixpoint trimStart (s : jsstring) : jsstring :=
  match s with
  | [] => []
  | c :: r => if isStrWhiteSpaceChar c then trimStart r else s
  end.

Definition trimEnd (s : jsstring) : jsstring := rev (trimStart (rev s)).

(** String.prototype.trim *)
Definition trim (s : jsstring) : jsstring := trimEnd (trimStart s).

(* ===================================================================== *)
(** ** The regular expression of normalizeUrl *)
(* ===================================================================== *)

(** The fragment of regular expressions that [/^https?:\/\//i] uses: a
    sequence of single characters, each possibly followed by [?], anchored
    at the start of the input. *)
Inductive term : Type :=
| Char (c : code_unit)
| Optional (c : code_unit).

(** Canonicalize of a non-unicode, ignore-case pattern: the upper-case
    mapping.  A code unit outside ASCII is never mapped into ASCII, so
    against the ASCII characters of the patterns here only [a]..[z] move. *)
Definition canonicalize (ignoreCase : bool) (c : code_unit) : code_unit :=
  if ignoreCase && ((97 <=? c) && (c <=? 122))%N then (c - 32)%N else c.

Definition char_matches (ignoreCase : bool) (p x : code_unit) : bool :=
  (canonicalize ignoreCase p =? canonicalize ignoreCase x)%N.

(** Backtracking match of the pattern at the current position. *)
Fixpoint matchHere (ignoreCase : bool) (p : list term) (s : jsstring) : bool :=
  match p with
  | [] => true
  | Char c :: p' =>
      match s with
      | x :: s' => char_matches ignoreCase c x && matchHere ignoreCase p' s'
      | [] => false
      end
  | Optional c :: p' =>
      match s with
      | x :: s' => char_matches ignoreCase c x && matchHere ignoreCase p' s'
      | [] => false
      end
      || matchHere ignoreCase p' s
  end.

Record RegExp : Type := { source : list term; ignoreCase : bool }.

(** RegExp.prototype.test for a pattern that starts with [^] and has no
    global flag: one attempt, at index 0. *)
Definition test (re : RegExp) (s : jsstring) : bool :=
  matchHere (ignoreCase re) (source re) s.

(** [/^https?:\/\//i] *)
Definition scheme_re : RegExp :=
  {| source := map Char (lit "http") ++ [Optional 115%N] ++ map Char (lit "://");
     ignoreCase := true |}.

(* ===================================================================== *)
(** ** scanWithAxe.ts: normalizeUrl *)
(* ===================================================================== *)

Definition normalizeUrl (input : jsstring) : jsstring :=
  let trimmed := trim input in
  if negb (test scheme_re trimmed) then lit "https://" ++ trimmed
  else trimmed.

(** *** What the specification says of the normalizer, in its own words *)

Definition toAsciiLower (c : code_unit) : code_unit :=
  if ((65 <=? c) && (c <=? 90))%N then (c + 32)%N else c.

(** [s] starts with [prefix], letter case ignored. *)
Definition startsWithIgnoringCase (prefix s : jsstring) : Prop :=
  exists p rest, s = p ++ rest /\ map toAsciiLower p = prefix.

Definition carriesScheme (s : jsstring) : Prop :=
  startsWithIgnoringCase (lit "http://") s \/
  startsWithIgnoringCase (lit "https://") s.

(** [t] is [s] with its surrounding whitespace removed. *)
Definition isTrimOf (s t : jsstring) : Prop :=
  (exists pre post,
      s = pre ++ t ++ post /\
      forallb isStrWhiteSpaceChar pre = true /\
      forallb isStrWhiteSpaceChar post = true) /\
  (forall c r, t = c :: r -> isStrWhiteSpaceChar c = false) /\
  (forall r c, t = r ++ [c] -> isStrWhiteSpaceChar c = false).

(* ===================================================================== *)
(** ** types.ts *)
(* ===================================================================== *)

Inductive AxeImpact : Type := minor | moderate | serious | critical.

Record AxeNode : Type := {
  html : option jsstring;
  target : option (list jsstring);
  failureSummary : option jsstring
}.

Record AxeViolation : Type := {
  id : jsstring;
  impact : option AxeImpact;
  description : jsstring;
  help : jsstring;
  helpUrl : option jsstring;
  tags : list jsstring;
  nodes : list AxeNode
}.

Record ScanResponse : Type := {
  ok : bool;
  url : option jsstring;
  timestamp : option jsstring;
  violations : list AxeViolation;
  error : option jsstring
}.

(* ===================================================================== *)
(** ** scanWithAxe.ts: the engine's native result and toScanResponse *)
(* ===================================================================== *)

(** [AxeRunResult].  The declared type makes [violations], [tags] and
    [nodes] mandatory, but the shaper reads each of them through [?? []]:
    they are optional here, [None] standing for a missing (nullish) field. *)
Module Axe.

Record Node : Type := {
  html : option jsstring;
  target : option (list jsstring);
  failureSummary : option jsstring
}.

Record Violation : Type := {
  id : jsstring;
  impact : option AxeImpact;
  description : jsstring;
  help : jsstring;
  helpUrl : option jsstring;
  tags : option (list jsstring);
  nodes : option (list Node)
}.

Record RunResult : Type := {
  url : option jsstring;
  violations : option (list Violation)
}.

End Axe.

(** [x ?? d] *)
Definition nullish {A : Type} (x : option A) (d : A) : A :=
  match x with
  | Some a => a
  | None => d
  end.

Infix "??" := nullish (at level 45, left associativity).

Definition shapeNode (n : Axe.Node) : AxeNode :=
  {| html := Axe.html n;
     target := Axe.target n;
     failureSummary := Axe.failureSummary n |}.

Definition shapeViolation (v : Axe.Violation) : AxeViolation :=
  {| id := Axe.id v;
     impact := Axe.impact v;
     description := Axe.description v;
     help := Axe.help v;
     helpUrl := Axe.helpUrl v;
     tags := Axe.tags v ?? [];
     nodes := map shapeNode (Axe.nodes v ?? []) |}.

(** [toScanResponse(url, result)].  [now] is what
    [new Date().toISOString()] evaluates to when the function runs. *)
Definition toScanResponse (now : jsstring) (url : jsstring)
  (result : Axe.RunResult) : ScanResponse :=
  let violations := map shapeViolation (Axe.violations result ?? []) in
  {| ok := true;
     url := Some url;
     timestamp := Some now;
     violations := violations;
     error := None |}.

(** A shaped violation read back as an engine record: [AxeViolation] is a
    structural subtype of the element type of [AxeRunResult.violations]. *)
Definition asRawNode (n : AxeNode) : Axe.Node :=
  {| Axe.html := html n;
     Axe.target := target n;
     Axe.failureSummary := failureSummary n |}.

Definition asRawViolation (v : AxeViolation) : Axe.Violation :=
  {| Axe.id := id v;
     Axe.impact := impact v;
     Axe.description := description v;
     Axe.help := help v;
     Axe.helpUrl := helpUrl v;
     Axe.tags := Some (tags v);
     Axe.nodes := Some (map asRawNode (nodes v)) |}.

Definition asRawResult (r : ScanResponse) : Axe.RunResult :=
  {| Axe.url := url r;
     Axe.violations := Some (map asRawViolation (violations r)) |}.

(* ===================================================================== *)
(** ** Completions, the host and the event log *)
(* ===================================================================== *)

(** A thrown value as the two handlers observe it: [e?.message] and
    [e?.stack], [None] when [e] or the property is nullish, and a string
    otherwise, as it is for every [Error] object. *)
Record thrown : Type := {
  message : option jsstring;
  stack : option jsstring
}.

(** How a call or an awaited promise completes. *)
Inductive Completion (A : Type) : Type :=
| Normal (a : A)
| Throw (e : thrown).

Arguments Normal {A} a.
Arguments Throw {A} e.

Definition isNormal {A : Type} (c : Completion A) : bool :=
  match c with
  | Normal _ => true
  | Throw _ => false
  end.

(** Handles of the browser-automation library. *)
Definition Browser := N.
Definition BrowserContext := N.
Definition Page := N.

Inductive waitUntil : Type := domcontentloaded.

(** The calls that leave the module. *)
Inductive call : Type :=
| chromium_launch (headless : bool) (args : list jsstring)
| browser_newContext (b : Browser) (ignoreHTTPSErrors : bool)
| context_newPage (c : BrowserContext)
| page_setDefaultTimeout (p : Page) (ms : Z)
| page_setDefaultNavigationTimeout (p : Page) (ms : Z)
| page_goto (p : Page) (url : jsstring) (w : waitUntil)
| page_waitForTimeout (p : Page) (ms : Z)
| process_cwd
| page_addScriptTag (p : Page) (path : jsstring)
| page_evaluate (p : Page)
| browser_close (b : Browser).

(** One entry of the log: the call and whether it completed normally. *)
Record event : Type := { what : call; settled : bool }.

Definition World := list event.

(** The environment of one scan: how each call completes, the clock, and
    Node's [path.join].  [evaluate] yields [None] when the page hands back
    a nullish value, which the cast [as AxeRunResult] does not notice.
    [stackTrace] is what V8 puts after the first line of the [stack] of an
    error that is created in [POST]: a line break and four spaces before
    each [at ...] frame, naming the files of the deployment; it is empty
    when [Error.stackTraceLimit] is 0. *)
Record Host : Type := {
  launch : Completion Browser;
  newContext : Completion BrowserContext;
  newPage : Completion Page;
  setDefaultTimeout : Completion unit;
  setDefaultNavigationTimeout : Completion unit;
  goto : jsstring -> Completion unit;
  waitForTimeout : Completion unit;
  cwd : Completion jsstring;
  path_join : list jsstring -> jsstring;
  addScriptTag : jsstring -> Completion unit;
  evaluate : Completion (option Axe.RunResult);
  close : Completion unit;
  toISOString_now : jsstring;
  stackTrace : jsstring
}.

(** *** Computations over a state that survive a throw *)

Definition Async (S A : Type) : Type := S -> Completion A * S.

Definition ret {S A : Type} (a : A) : Async S A := fun s => (Normal a, s).

Definition throw {S A : Type} (e : thrown) : Async S A := fun s => (Throw e, s).

Definition bind {S A B : Type} (m : Async S A) (k : A -> Async S B) : Async S B :=
  fun s =>
    match m s with
    | (Normal a, s') => k a s'
    | (Throw e, s') => (Throw e, s')
    end.

Notation "x <- m ;; k" := (bind m (fun x => k))
  (at level 61, m at next level, right associativity).
Notation "m ;; k" := (bind m (fun _ => k))
  (at level 61, right associativity).

(** [try { body } catch (e) { handler } finally { finalizer }], where
    [body] and [handler] end in [return] and [finalizer] does not: the
    finalizer runs on every path, and a throw of its own replaces what the
    other two completed with. *)
Definition try_catch_finally {S A : Type} (body : Async S A)
  (handler : thrown -> Async S A) (finalizer : Async S unit) : Async S A :=
  fun s =>
    let '(c, s1) :=
      match body s with
      | (Normal a, s') => (Normal a, s')
      | (Throw e, s') => handler e s'
      end in
    match finalizer s1 with
    | (Normal _, s2) => (c, s2)
    | (Throw e, s2) => (Throw e, s2)
    end.

(** [try { body } catch (e) { handler }] *)
Definition try_catch {S A : Type} (body : Async S A)
  (handler : thrown -> Async S A) : Async S A :=
  fun s =>
    match body s with
    | (Normal a, s') => (Normal a, s')
    | (Throw e, s') => handler e s'
    end.

(* ===================================================================== *)
(** ** scanWithAxe.ts: scanWithAxe *)
(* ===================================================================== *)

(** The frame of one invocation: the local [browser] and the log. *)
Record Frame : Type := { browser : option Browser; log : World }.

(** Make the call [c], which completes as the host says. *)
Definition perform {A : Type} (c : call) (r : Completion A) : Async Frame A :=
  fun f =>
    (r, {| browser := browser f;
           log := log f ++ [{| what := c; settled := isNormal r |}] |}).

Definition set_browser (b : option Browser) : Async Frame unit :=
  fun f => (Normal tt, {| browser := b; log := log f |}).

Definition get_browser : Async Frame (option Browser) :=
  fun f => (Normal (browser f), f).

(** What V8 throws on [result.violations] when [result] is [undefined];
    for [null] the text names [null] in its place.  Of this error only the
    message is read, by the [catch] of [scanWithAxe]. *)
Definition TypeError_violations : thrown :=
  {| message := Some (lit "Cannot read properties of undefined (reading 'violations')");
     stack := Some (lit "TypeError: Cannot read properties of undefined (reading 'violations')") |}.

(** [toScanResponse(targetUrl, axeResult as AxeRunResult)] *)
Definition toScanResponse_cast (now : jsstring) (url : jsstring)
  (axeResult : option Axe.RunResult) : Async Frame ScanResponse :=
  match axeResult with
  | Some result => ret (toScanResponse now url result)
  | None => throw TypeError_violations
  end.

Definition scan_try (h : Host) (targetUrl : jsstring) : Async Frame ScanResponse :=
  b <- perform (chromium_launch true [lit "--no-sandbox"; lit "--disable-setuid-sandbox"])
         (launch h) ;;
  set_browser (Some b) ;;
  context <- perform (browser_newContext b true) (newContext h) ;;
  page <- perform (context_newPage context) (newPage h) ;;
  perform (page_setDefaultTimeout page 30000) (setDefaultTimeout h) ;;
  perform (page_setDefaultNavigationTimeout page 30000)
    (setDefaultNavigationTimeout h) ;;
  perform (page_goto page targetUrl domcontentloaded) (goto h targetUrl) ;;
  perform (page_waitForTimeout page 800) (waitForTimeout h) ;;
  cwd <- perform process_cwd (cwd h) ;;
  let axePath :=
    path_join h [cwd; lit "node_modules"; lit "axe-core"; lit "axe.min.js"] in
  perform (page_addScriptTag page axePath) (addScriptTag h axePath) ;;
  axeResult <- perform (page_evaluate page) (evaluate h) ;;
  toScanResponse_cast (toISOString_now h) targetUrl axeResult.

Definition scan_catch (h : Host) (targetUrl : jsstring) (e : thrown)
  : Async Frame ScanResponse :=
  ret {| ok := false;
         url := Some targetUrl;
         timestamp := Some (toISOString_now h);
         violations := [];
         error := Some (message e ?? lit "Scan failed") |}.

Definition scan_finally (h : Host) : Async Frame unit :=
  b <- get_browser ;;
  match b with
  | Some b => perform (browser_close b) (close h)
  | None => ret tt
  end.

(** [scanWithAxe(url)], run by host [h] from the log [w]. *)
Definition scanWithAxe (h : Host) (url : jsstring) : Async World ScanResponse :=
  fun w =>
    let targetUrl := normalizeUrl url in
    let '(c, f) :=
      try_catch_finally (scan_try h targetUrl) (scan_catch h targetUrl)
        (scan_finally h) {| browser := None; log := w |} in
    (c, log f).

(** *** Several invocations, one after the other *)

Fixpoint scanAll (calls : list (Host * jsstring)) (w : World)
  : list (Completion ScanResponse) * World :=
  match calls with
  | [] => ([], w)
  | (h, url) :: rest =>
      let '(c, w1) := scanWithAxe h url w in
      let '(cs, w2) := scanAll rest w1 in
      (c :: cs, w2)
  end.

Definition isAcquisition (e : event) : bool :=
  match what e with
  | chromium_launch _ _ => settled e
  | _ => false
  end.

(** [browser.close()] is called, whether it resolves or is rejected. *)
Definition isCloseCall (e : event) : bool :=
  match what e with
  | browser_close _ => true
  | _ => false
  end.

(** A browser is released by a [browser.close()] that resolves. *)
Definition isRelease (e : event) : bool :=
  match what e with
  | browser_close _ => settled e
  | _ => false
  end.

(** The call is one whose launch succeeds. *)
Definition launched (c : Host * jsstring) : bool := isNormal (launch (fst c)).

(** The call is one whose launch succeeds and whose close resolves. *)
Definition released (c : Host * jsstring) : bool :=
  launched c && isNormal (close (fst c)).

(** Browsers obtained from [chromium.launch], calls of [browser.close], and
    those of them that resolved. *)
Definition acquisitions (w : World) : nat := List.length (filter isAcquisition w).
Definition closeCalls (w : World) : nat := List.length (filter isCloseCall w).
Definition releases (w : World) : nat := List.length (filter isRelease w).

(** Browsers launched and not yet closed after the events of [w], starting
    from [n] open ones: a close that is rejected leaves its browser open.
    [None] if a close resolves with no browser open. *)
Fixpoint openBrowsers (w : World) (n : nat) : option nat :=
  match w with
  | [] => Some n
  | e :: w' =>
      if isAcquisition e then openBrowsers w' (S n)
      else if isRelease e then
        match n with
        | O => None
        | S m => openBrowsers w' m
        end
      else openBrowsers w' n
  end.

(** *** What the specification says of the orchestrator, in its own words *)

(** [{ok: false, url, timestamp: now, violations: [], error: message}] *)
Definition failureResponse (h : Host) (targetUrl : jsstring) (e : thrown)
  : ScanResponse :=
  {| ok := false;
     url := Some targetUrl;
     timestamp := Some (toISOString_now h);
     violations := [];
     error := Some (message e ?? lit "Scan failed") |}.

Definition andThen {A B : Type} (c : Completion A) (k : A -> Completion B)
  : Completion B :=
  match c with
  | Normal a => k a
  | Throw e => Throw e
  end.

(** The stages of one scan in their order, as a computation that stops at
    the first failure: browser acquisition (launch, context, page,
    timeouts), navigation and settling, script injection, audit execution,
    and the check that shaping makes of the engine's result. *)
Definition stages (h : Host) (targetUrl : jsstring) : Completion Axe.RunResult :=
  andThen (launch h) (fun _ =>
  andThen (newContext h) (fun _ =>
  andThen (newPage h) (fun _ =>
  andThen (setDefaultTimeout h) (fun _ =>
  andThen (setDefaultNavigationTimeout h) (fun _ =>
  andThen (goto h targetUrl) (fun _ =>
  andThen (waitForTimeout h) (fun _ =>
  andThen (cwd h) (fun d =>
  andThen (addScriptTag h
             (path_join h [d; lit "node_modules"; lit "axe-core"; lit "axe.min.js"]))
    (fun _ =>
  andThen (evaluate h) (fun r =>
  match r with
  | Some result => Normal result
  | None => Throw TypeError_violations
  end)))))))))).

Definition firstFailure (h : Host) (targetUrl : jsstring) : option thrown :=
  match stages h targetUrl with
  | Normal _ => None
  | Throw e => Some e
  end.

(** What a scan answers when nothing fails on the way out: the shaped
    result, or the failure response of the first failure. *)
Definition expectedResponse (h : Host) (targetUrl : jsstring) : ScanResponse :=
  match stages h targetUrl with
  | Normal result => toScanResponse (toISOString_now h) targetUrl result
  | Throw e => failureResponse h targetUrl e
  end.

(** The release of an acquired browser does not itself fail. *)
Definition releaseSucceeds (h : Host) : Prop :=
  isNormal (launch h) = true -> isNormal (close h) = true.

(** The ok/error invariant of [ScanResponse]. *)
Definition populated (e : option jsstring) : Prop :=
  exists m, e = Some m /\ m <> [].

Definition okErrorInvariant (r : ScanResponse) : Prop :=
  (ok r = false -> violations r = [] /\ populated (error r)) /\
  (ok r = true -> error r = None).

(** The invariant with "populated" read as "present". *)
Definition okErrorPresent (r : ScanResponse) : Prop :=
  (ok r = false -> violations r = [] /\ error r <> None) /\
  (ok r = true -> error r = None).

(** *** Notions for reasoning about the log *)

(** An event that neither acquires a browser nor calls [browser.close()]. *)
Definition quietEvent (e : event) : bool :=
  negb (isAcquisition e) && negb (isCloseCall e).

(** A computation that leaves the local [browser] alone and logs quiet
    events only. *)
Definition quiet {A : Type} (m : Async Frame A) : Prop :=
  forall f,
    browser (snd (m f)) = browser f /\
    exists d, log (snd (m f)) = log f ++ d /\ forallb quietEvent d = true.

Definition launchEvent (resolved : bool) : event :=
  {| what := chromium_launch true [lit "--no-sandbox"; lit "--disable-setuid-sandbox"];
     settled := resolved |}.

Definition closeEvent (b : Browser) (resolved : bool) : event :=
  {| what := browser_close b; settled := resolved |}.

(* ===================================================================== *)
(** ** route.ts: POST *)
(* ===================================================================== *)

#[local] Set Warnings "-register-all".

(** A parsed JSON text.  A number is kept as an integer: the handler reads
    of a number only whether it is zero. *)
Inductive json : Type :=
| JNull
| JBool (b : bool)
| JNumber (n : Z)
| JString (s : jsstring)
| JArray (items : list json)
| JObject (members : list (jsstring * json)).

(** The request as the handler sees it: how [req.json()] completes. *)
Record Request : Type := { req_json : Completion json }.

(** [NextResponse.json(body, { status })] *)
Record NextResponse : Type := { status : Z; body : ScanResponse }.

(** The own property [key] of a parsed object; of duplicate members
    JSON.parse keeps the last.  [None] is [undefined]. *)
Fixpoint getMember (key : jsstring) (members : list (jsstring * json))
  : option json :=
  match members with
  | [] => None
  | (k, v) :: rest =>
      match getMember key rest with
      | Some v' => Some v'
      | None => if jsstring_eqb k key then Some v else None
      end
  end.

(** What V8 throws on [const { url } = null] in [POST]: the stack is the
    name and the message on a first line, then the frames. *)
Definition TypeError_destructure (h : Host) : thrown :=
  {| message := Some (lit "Cannot destructure property 'url' of '(intermediate value)' as it is null.");
     stack := Some (lit "TypeError: Cannot destructure property 'url' of '(intermediate value)' as it is null."
                    ++ stackTrace h) |}.

(** What V8 throws on [input.trim()] in [normalizeUrl] for an [input]
    that is not a string, with the first line of its stack.  [POST] hands
    strings only to [scanWithAxe], so that it is never thrown. *)
Definition TypeError_trim : thrown :=
  {| message := Some (lit "input.trim is not a function");
     stack := Some (lit "TypeError: input.trim is not a function") |}.

(** [const { url } = value]: throws on [null]; a boolean, a number, a string
    or an array has no property [url]. *)
Definition destructure_url (h : Host) (value : json) : Completion (option json) :=
  match value with
  | JNull => Throw (TypeError_destructure h)
  | JObject members => Normal (getMember (lit "url") members)
  | _ => Normal None
  end.

(** ToBoolean *)
Definition truthy (v : option json) : bool :=
  match v with
  | None => false
  | Some JNull => false
  | Some (JBool b) => b
  | Some (JNumber n) => negb (n =? 0)%Z
  | Some (JString s) => match s with [] => false | _ => true end
  | Some (JArray _) => true
  | Some (JObject _) => true
  end.

Definition typeof (v : option json) : jsstring :=
  match v with
  | None => lit "undefined"
  | Some JNull => lit "object"
  | Some (JBool _) => lit "boolean"
  | Some (JNumber _) => lit "number"
  | Some (JString _) => lit "string"
  | Some (JArray _) => lit "object"
  | Some (JObject _) => lit "object"
  end.

Definition await {S A : Type} (c : Completion A) : Async S A := fun s => (c, s).

(** [{ok: false, violations: [], error: "Missing url"}] *)
Definition missingUrl : ScanResponse :=
  {| ok := false;
     url := None;
     timestamp := None;
     violations := [];
     error := Some (lit "Missing url") |}.

Definition POST_try (h : Host) (req : Request) : Async World NextResponse :=
  parsed <- await (req_json req) ;;
  url <- await (destructure_url h parsed) ;;
  if negb (truthy url) || negb (jsstring_eqb (typeof url) (lit "string")) then
    ret {| status := 400; body := missingUrl |}
  else
    result <- match url with
              | Some (JString s) => scanWithAxe h s
              | _ => throw TypeError_trim
              end ;;
    if negb (ok result) then ret {| status := 500; body := result |}
    else ret {| status := 200; body := result |}.

Definition POST_catch (e : thrown) : Async World NextResponse :=
  ret {| status := 500;
         body := {| ok := false;
                    url := None;
                    timestamp := None;
                    violations := [];
                    error := Some ((message e ?? lit "Scan failed") ++ [10%N]
                                   ++ (stack e ?? [])) |} |}.

(** [POST(req)], served by host [h] from the log [w]. *)
Definition POST (h : Host) (req : Request) : Async World NextResponse :=
  try_catch (POST_try h req) POST_catch.

(** The [url] field of a request body, as the specification speaks of it:
    missing, not a string, or the empty string. *)
Definition urlUnusable (url : option json) : Prop :=
  url = None \/ (forall s, url <> Some (JString s)) \/ url = Some (JString []).

(* ===================================================================== *)
(** ** ScanForm.tsx: the impact filter *)
(* ===================================================================== *)

(** The string an [AxeImpact] is at run time. *)
Definition impact_key (i : AxeImpact) : jsstring :=
  match i with
  | minor => lit "minor"
  | moderate => lit "moderate"
  | serious => lit "serious"
  | critical => lit "critical"
  end.

Module ScanForm.

(** The state [minImpact]. *)
Inductive MinImpact : Type := all | moderate | serious | critical.

Definition minImpact_key (m : MinImpact) : jsstring :=
  match m with
  | all => lit "all"
  | moderate => lit "moderate"
  | serious => lit "serious"
  | critical => lit "critical"
  end.

Definition IMPACT_RANK : list (jsstring * N) :=
  [(lit "minor", 1%N); (lit "moderate", 2%N); (lit "serious", 3%N);
   (lit "critical", 4%N)].

(** The own property [key] of an object literal. *)
Fixpoint get (table : list (jsstring * N)) (key : jsstring) : option N :=
  match table with
  | [] => None
  | (k, v) :: rest => if jsstring_eqb k key then Some v else get rest key
  end.

(** The names that an object literal inherits from [Object.prototype]. *)
Definition Object_prototype : list jsstring :=
  [lit "constructor"; lit "hasOwnProperty"; lit "isPrototypeOf";
   lit "propertyIsEnumerable"; lit "toLocaleString"; lit "toString";
   lit "valueOf"; lit "__proto__"; lit "__defineGetter__";
   lit "__defineSetter__"; lit "__lookupGetter__"; lit "__lookupSetter__"].

(** What reading a property of the table gives: a number of the literal,
    or what is inherited, which is a function for every name but
    [__proto__] and the prototype object for that one. *)
Inductive Value : Type :=
| Number (n : N)
| Inherited.

(** [table[key]]: the own property, else the inherited one; [None] is
    [undefined]. *)
Definition read (table : list (jsstring * N)) (key : jsstring) : option Value :=
  match get table key with
  | Some n => Some (Number n)
  | None =>
      if existsb (jsstring_eqb key) Object_prototype then Some Inherited
      else None
  end.

(** [rank >= threshold]: a function or an object converts to NaN, as
    [undefined] does, and no comparison with NaN holds. *)
Definition atLeast (rank : Value) (threshold : option Value) : bool :=
  match rank, threshold with
  | Number r, Some (Number t) => (t <=? r)%N
  | _, _ => false
  end.

Definition passesImpact (minImpact : MinImpact) (impact : option jsstring) : bool :=
  match minImpact with
  | all => true
  | _ =>
      let rank := read IMPACT_RANK (impact ?? lit "minor") ?? Number 0%N in
      atLeast rank (read IMPACT_RANK (minImpact_key minImpact))
  end.

Fixpoint startsWith (s q : jsstring) : bool :=
  match q, s with
  | [], _ => true
  | _ :: _, [] => false
  | a :: q', b :: s' => (a =? b)%N && startsWith s' q'
  end.

(** String.prototype.includes *)
Fixpoint includes (s q : jsstring) : bool :=
  startsWith s q ||
  match s with
  | [] => false
  | _ :: s' => includes s' q
  end.

(** Array.prototype.join *)
Fixpoint join (sep : jsstring) (l : list jsstring) : jsstring :=
  match l with
  | [] => []
  | [x] => x
  | x :: rest => x ++ sep ++ join sep rest
  end.

Definition isEmpty (s : jsstring) : bool :=
  match s with
  | [] => true
  | _ => false
  end.

Section Filter.

(** String.prototype.toLowerCase, the engine's. *)
Variable toLowerCase : jsstring -> jsstring.

Definition matchesQuery (q : jsstring) (v : AxeViolation) : bool :=
  isEmpty q
  || includes (toLowerCase (id v)) q
  || includes (toLowerCase (help v)) q
  || includes (toLowerCase (description v)) q
  || includes (toLowerCase (join (lit ",") (tags v))) q.

Definition filteredViolations (data : option ScanResponse) (query : jsstring)
  (minImpact : MinImpact) : list AxeViolation :=
  match data with
  | None => []
  | Some d =>
      let q := toLowerCase (trim query) in
      filter
        (fun v =>
           let matchesImpact :=
             passesImpact minImpact (option_map impact_key (impact v)) in
           matchesImpact && matchesQuery q v)
        (violations d)
  end.

End Filter.

(** *** The summary badges *)

(** [v.impact === key] *)
Definition impactIs (key : jsstring) (v : AxeViolation) : bool :=
  match impact v with
  | Some i => jsstring_eqb (impact_key i) key
  | None => false
  end.

Module Summary.
Record t : Type := { total : nat; critical : nat; serious : nat }.
End Summary.

Definition summary (data : option ScanResponse) : option Summary.t :=
  match data with
  | None => None
  | Some d =>
      Some {| Summary.total := List.length (violations d);
              Summary.critical :=
                List.length (filter (impactIs (lit "critical")) (violations d));
              Summary.serious :=
                List.length (filter (impactIs (lit "serious")) (violations d)) |}
  end.

(** *** The state of the form and runScan *)

Module State.
Record t : Type := {
  url : jsstring;
  loading : bool;
  error : option jsstring;
  data : option ScanResponse;
  minImpact : MinImpact;
  query : jsstring
}.
End State.

Definition DEFAULT_URL : jsstring := lit "https://example.com".

(** The initial values of the six [useState] hooks. *)
Definition initialState : State.t :=
  {| State.url := DEFAULT_URL;
     State.loading := false;
     State.error := None;
     State.data := None;
     State.minImpact := all;
     State.query := [] |}.

Definition getState : Async State.t State.t := fun st => (Normal st, st).

Definition setLoading (b : bool) : Async State.t unit :=
  fun st =>
    (Normal tt,
     {| State.url := State.url st;
        State.loading := b;
        State.error := State.error st;
        State.data := State.data st;
        State.minImpact := State.minImpact st;
        State.query := State.query st |}).

Definition setError (e : option jsstring) : Async State.t unit :=
  fun st =>
    (Normal tt,
     {| State.url := State.url st;
        State.loading := State.loading st;
        State.error := e;
        State.data := State.data st;
        State.minImpact := State.minImpact st;
        State.query := State.query st |}).

Definition setData (d : option ScanResponse) : Async State.t unit :=
  fun st =>
    (Normal tt,
     {| State.url := State.url st;
        State.loading := State.loading st;
        State.error := State.error st;
        State.data := d;
        State.minImpact := State.minImpact st;
        State.query := State.query st |}).

Definition setQuery (q : jsstring) : Async State.t unit :=
  fun st =>
    (Normal tt,
     {| State.url := State.url st;
        State.loading := State.loading st;
        State.error := State.error st;
        State.data := State.data st;
        State.minImpact := State.minImpact st;
        State.query := q |}).

Definition setMinImpact (m : MinImpact) : Async State.t unit :=
  fun st =>
    (Normal tt,
     {| State.url := State.url st;
        State.loading := State.loading st;
        State.error := State.error st;
        State.data := State.data st;
        State.minImpact := m;
        State.query := State.query st |}).

(** What [fetch] resolves to, as [runScan] reads it: [res.ok] and how
    [res.json()] completes, its value taken at the type [ScanResponse] that
    the source casts it to. *)
Record FetchResponse : Type := {
  res_ok : bool;
  res_json : Completion ScanResponse
}.

(** The answer of [fetch("/api/scan", { method: "POST", ... })] to a
    request body. *)
Definition Fetch : Type := Request -> Completion FetchResponse.

(** The body [JSON.stringify({ url })] as the endpoint parses it. *)
Definition scanRequest (url : jsstring) : Request :=
  {| req_json := Normal (JObject [(lit "url", JString url)]) |}.

(** [new Error(text)], whose stack begins with its message line. *)
Definition newError (text : jsstring) : thrown :=
  {| message := Some text; stack := Some (lit "Error: " ++ text) |}.

Definition runScan_try (fetch : Fetch) : Async State.t unit :=
  st <- getState ;;
  res <- await (fetch (scanRequest (State.url st))) ;;
  json <- await (res_json res) ;;
  if negb (res_ok res) || negb (ok json) then
    throw (newError (error json ?? lit "Scan failed"))
  else setData (Some json).

Definition runScan_catch (e : thrown) : Async State.t unit :=
  setError (Some (message e ?? lit "Something went wrong")).

(** [runScan()] *)
Definition runScan (fetch : Fetch) : Async State.t unit :=
  setLoading true ;;
  setError None ;;
  setData None ;;
  try_catch_finally (runScan_try fetch) runScan_catch (setLoading false).

(** The [onClick] of the Reset button. *)
Definition reset : Async State.t unit :=
  setQuery [] ;;
  setMinImpact all.

(** [disabled={loading || !url.trim()}] of the Run scan button. *)
Definition runDisabled (st : State.t) : bool :=
  State.loading st || isEmpty (trim (State.url st)).

(** [{error && ...}]: the error box is rendered. *)
Definition showsError (st : State.t) : bool :=
  match State.error st with
  | Some (_ :: _) => true
  | _ => false
  end.

(** [{data && ...}]: the filter bar and the list are rendered. *)
Definition showsResults (st : State.t) : bool :=
  match State.data st with
  | Some _ => true
  | None => false
  end.

End ScanForm.

(** *** The endpoint as the form's [fetch] sees it *)

(** [res.ok] *)
Definition statusOk (status : Z) : bool :=
  ((200 <=? status) && (status <=? 299))%Z.

(** [POST] served by host [h] from the log [w]: the response's status read
    as [res.ok] and its JSON body read back by [res.json()].  A throw that
    left the handler would reach the client as a page that is not JSON. *)
Definition served (h : Host) (w : World) : ScanForm.Fetch :=
  fun req =>
    match POST h req w with
    | (Normal resp, _) =>
        Normal {| ScanForm.res_ok := statusOk (status resp);
                  ScanForm.res_json := Normal (body resp) |}
    | (Throw e, _) =>
        Normal {| ScanForm.res_ok := false; ScanForm.res_json := Throw e |}
    end.

(** *** Notions for reasoning about runScan *)

(** The state [st] with [loading] off and the given error and data. *)
Definition settledWith (st : ScanForm.State.t) (e : option jsstring)
  (d : option ScanResponse) : ScanForm.State.t :=
  {| ScanForm.State.url := ScanForm.State.url st;
     ScanForm.State.loading := false;
     ScanForm.State.error := e;
     ScanForm.State.data := d;
     ScanForm.State.minImpact := ScanForm.State.minImpact st;
     ScanForm.State.query := ScanForm.State.query st |}.

(** The state a run ends in, by what [fetch] and [res.json()] did. *)
Definition runScan_outcome (fetch : ScanForm.Fetch) (st st' : ScanForm.State.t)
  : Prop :=
  st' =
    match fetch (ScanForm.scanRequest (ScanForm.State.url st)) with
    | Throw e => settledWith st (Some (message e ?? lit "Something went wrong")) None
    | Normal res =>
        match ScanForm.res_json res with
        | Throw e =>
            settledWith st (Some (message e ?? lit "Something went wrong")) None
        | Normal json =>
            if ScanForm.res_ok res && ok json
            then settledWith st None (Some json)
            else settledWith st (Some (error json ?? lit "Scan failed")) None
        end
    end.

(* ===================================================================== *)
(** ** scanWithAxe.ts: the order of the calls *)
(* ===================================================================== *)

(** The place of a call in the text of [scanWithAxe]. *)
Definition callIndex (c : call) : nat :=
  match c with
  | chromium_launch _ _ => 0
  | browser_newContext _ _ => 1
  | context_newPage _ => 2
  | page_setDefaultTimeout _ _ => 3
  | page_setDefaultNavigationTimeout _ _ => 4
  | page_goto _ _ _ => 5
  | page_waitForTimeout _ _ => 6
  | process_cwd => 7
  | page_addScriptTag _ _ => 8
  | page_evaluate _ => 9
  | browser_close _ => 10
  end.

(** Whether each of the ten calls of the [try] block succeeds on host [h],
    in the order of the text.  [page.addScriptTag] is asked for the path
    that [process.cwd()] gives; where that call fails the block has ended
    before a path is needed. *)
Definition answers (h : Host) (targetUrl : jsstring) : list bool :=
  [isNormal (launch h);
   isNormal (newContext h);
   isNormal (newPage h);
   isNormal (setDefaultTimeout h);
   isNormal (setDefaultNavigationTimeout h);
   isNormal (goto h targetUrl);
   isNormal (waitForTimeout h);
   isNormal (cwd h);
   match cwd h with
   | Normal d =>
       isNormal (addScriptTag h
                   (path_join h [d; lit "node_modules"; lit "axe-core";
                                 lit "axe.min.js"]))
   | Throw _ => false
   end;
   isNormal (evaluate h)].

(** The answers up to the first failure, that one included. *)
Fixpoint untilFirstFailure (l : list bool) : list bool :=
  match l with
  | [] => []
  | true :: rest => true :: untilFirstFailure rest
  | false :: _ => [false]
  end.

(** The call is made on the handle that the host gave out for it: the
    context is asked of the launched browser, the page of that context,
    and every page call goes to that page. *)
Definition onHandle (h : Host) (e : event) : Prop :=
  match what e with
  | chromium_launch _ _ => True
  | process_cwd => True
  | browser_newContext b _ => launch h = Normal b
  | browser_close b => launch h = Normal b
  | context_newPage c => newContext h = Normal c
  | page_setDefaultTimeout p _ => newPage h = Normal p
  | page_setDefaultNavigationTimeout p _ => newPage h = Normal p
  | page_goto p _ _ => newPage h = Normal p
  | page_waitForTimeout p _ => newPage h = Normal p
  | page_addScriptTag p _ => newPage h = Normal p
  | page_evaluate p => newPage h = Normal p
  end.

(** The call leaves the page where it is, or sends it to [targetUrl] and
    waits for the DOM content only. *)
Definition navigatesOnlyTo (targetUrl : jsstring) (e : event) : Prop :=
  forall p u w, what e = page_goto p u w -> u = targetUrl /\ w = domcontentloaded.

(** The call sets no timeout, or sets it to 30 seconds. *)
Definition timeoutIs30s (e : event) : Prop :=
  forall p ms,
    what e = page_setDefaultTimeout p ms \/
    what e = page_setDefaultNavigationTimeout p ms ->
    ms = 30000%Z.

(** What the [try] block logs: its calls in the order of the text, all but
    the last of them successful. *)
Definition orderly (t : jsstring) (d : list event) : Prop :=
  map callIndex (map what d) = seq 0 (List.length d) /\
  1 <= List.length d <= 10 /\
  forallb settled (removelast d) = true /\
  Forall (navigatesOnlyTo t) d /\
  Forall timeoutIs30s d.

(** Closes one path through the [try] block, [H] being how it ran. *)
Ltac finish_events H :=
  injection H as <- <-; cbn [log browser isNormal];
  rewrite <- ?app_assoc; cbn [app];
  eexists; split; [reflexivity|]; split;
  [ unfold orderly; split; [reflexivity|]; split; [cbn [List.length]; lia|];
    split; [reflexivity|];
    split; repeat first [apply Forall_nil | apply Forall_cons];
    unfold navigatesOnlyTo, timeoutIs30s; intros; cbn [what] in *;
    repeat match goal with
           | H' : _ \/ _ |- _ => destruct H'
           end; try split; congruence
  | intros ? Hr; first [discriminate Hr | split; reflexivity] ].

(** Closes one path through the [try] block for the outcomes of its calls
    and the handles they are made on. *)
Ltac finish_answers H :=
  injection H as <- <-; cbn [log browser isNormal];
  rewrite <- ?app_assoc; cbn [app];
  eexists; split; [reflexivity|]; split; [reflexivity|];
  repeat first [apply Forall_nil | apply Forall_cons];
  unfold onHandle; cbn [what]; first [exact I | assumption].

(* ===================================================================== *)
(** ** ThemeToggle.tsx *)
(* ===================================================================== *)

Module ThemeToggle.

(** A Web Storage area: keys are unique, [setItem] replaces the value of a
    key that is there and appends one that is not. *)
Definition Storage : Type := list (jsstring * jsstring).

Fixpoint getItem (key : jsstring) (s : Storage) : option jsstring :=
  match s with
  | [] => None
  | (k, v) :: rest => if jsstring_eqb k key then Some v else getItem key rest
  end.

Fixpoint setItem (key value : jsstring) (s : Storage) : Storage :=
  match s with
  | [] => [(key, value)]
  | (k, v) :: rest =>
      if jsstring_eqb k key then (k, value) :: rest
      else (k, v) :: setItem key value rest
  end.

(** What the component touches outside itself: [localStorage],
    [document.documentElement.dataset.theme], and
    [window.matchMedia("(prefers-color-scheme: light)").matches]. *)
Record Window : Type := {
  localStorage : Storage;
  dataset_theme : option jsstring;
  prefersLight : bool
}.

(** The two [useState] hooks; [theme] is the string it is at run time. *)
Record State : Type := { theme : jsstring; mounted : bool }.

Definition initialState : State := {| theme := lit "dark"; mounted := false |}.

(** The effect that runs once after the first render. *)
Definition useEffect_mount (st : State) (win : Window) : State * Window :=
  let stored := getItem (lit "theme") (localStorage win) in
  match stored with
  | Some (c :: r) =>
      ({| theme := c :: r; mounted := true |},
       {| localStorage := localStorage win;
          dataset_theme := Some (c :: r);
          prefersLight := prefersLight win |})
  | _ =>
      let initial := if prefersLight win then lit "light" else lit "dark" in
      ({| theme := initial; mounted := true |},
       {| localStorage := localStorage win;
          dataset_theme := Some initial;
          prefersLight := prefersLight win |})
  end.

Definition toggleTheme (st : State) (win : Window) : State * Window :=
  let next :=
    if jsstring_eqb (theme st) (lit "dark") then lit "light" else lit "dark" in
  ({| theme := next; mounted := mounted st |},
   {| localStorage := setItem (lit "theme") next (localStorage win);
      dataset_theme := Some next;
      prefersLight := prefersLight win |}).

(** [if (!mounted) return null]: the button is rendered. *)
Definition rendersButton (st : State) : bool := mounted st.

(** Clicking the button [n] times. *)
Fixpoint clicks (n : nat) (st : State) (win : Window) : State * Window :=
  match n with
  | O => (st, win)
  | S m => let '(st', win') := toggleTheme st win in clicks m st' win'
  end.

Definition isTheme (t : jsstring) : Prop := t = lit "dark" \/ t = lit "light".

End ThemeToggle.

(* ===================================================================== *)
(** ** Concrete hosts and inputs *)
(* ===================================================================== *)

(** An engine record for the rule [image-alt] that carries neither [impact]
    nor [tags]. *)
Definition imageAlt : Axe.Violation :=
  {| Axe.id := lit "image-alt";
     Axe.impact := None;
     Axe.description := lit "Ensure <img> elements have alternative text";
     Axe.help := lit "Images must have alternative text";
     Axe.helpUrl := None;
     Axe.tags := None;
     Axe.nodes :=
       Some [{| Axe.html := Some (lit "<img src=logo.png>");
                Axe.target := Some [lit "img"];
                Axe.failureSummary := None |}] |}.

Definition oneFinding : Axe.RunResult :=
  {| Axe.url := Some (lit "https://example.com/");
     Axe.violations := Some [imageAlt] |}.

(** A host on which every call succeeds and the page has one finding. *)
Definition calmHost : Host :=
  {| launch := Normal 1%N;
     newContext := Normal 2%N;
     newPage := Normal 3%N;
     setDefaultTimeout := Normal tt;
     setDefaultNavigationTimeout := Normal tt;
     goto := fun _ => Normal tt;
     waitForTimeout := Normal tt;
     cwd := Normal (lit "/srv/app");
     path_join := fun parts => ScanForm.join (lit "/") parts;
     addScriptTag := fun _ => Normal tt;
     evaluate := Normal (Some oneFinding);
     close := Normal tt;
     toISOString_now := lit "2025-12-30T10:00:00.000Z";
     stackTrace :=
       [10%N] ++ lit "    at POST (/srv/app/.next/server/app/api/scan/route.js:1:1713)" |}.

Definition withLaunch (c : Completion Browser) (h : Host) : Host :=
  {| launch := c;
     newContext := newContext h;
     newPage := newPage h;
     setDefaultTimeout := setDefaultTimeout h;
     setDefaultNavigationTimeout := setDefaultNavigationTimeout h;
     goto := goto h;
     waitForTimeout := waitForTimeout h;
     cwd := cwd h;
     path_join := path_join h;
     addScriptTag := addScriptTag h;
     evaluate := evaluate h;
     close := close h;
     toISOString_now := toISOString_now h;
     stackTrace := stackTrace h |}.

Definition withGoto (g : jsstring -> Completion unit) (h : Host) : Host :=
  {| launch := launch h;
     newContext := newContext h;
     newPage := newPage h;
     setDefaultTimeout := setDefaultTimeout h;
     setDefaultNavigationTimeout := setDefaultNavigationTimeout h;
     goto := g;
     waitForTimeout := waitForTimeout h;
     cwd := cwd h;
     path_join := path_join h;
     addScriptTag := addScriptTag h;
     evaluate := evaluate h;
     close := close h;
     toISOString_now := toISOString_now h;
     stackTrace := stackTrace h |}.

Definition withClose (c : Completion unit) (h : Host) : Host :=
  {| launch := launch h;
     newContext := newContext h;
     newPage := newPage h;
     setDefaultTimeout := setDefaultTimeout h;
     setDefaultNavigationTimeout := setDefaultNavigationTimeout h;
     goto := goto h;
     waitForTimeout := waitForTimeout h;
     cwd := cwd h;
     path_join := path_join h;
     addScriptTag := addScriptTag h;
     evaluate := evaluate h;
     close := c;
     toISOString_now := toISOString_now h;
     stackTrace := stackTrace h |}.

(** [new Error(text)] *)
Definition Error (text : string) : thrown :=
  {| message := Some (lit text);
     stack := Some (lit "Error: " ++ lit text) |}.

(** The target host does not resolve. *)
Definition unresolvedHost : Host :=
  withGoto (fun _ => Throw (Error "page.goto: net::ERR_NAME_NOT_RESOLVED")) calmHost.

(** No browser can be started. *)
Definition noBrowserHost : Host :=
  withLaunch (Throw (Error "browserType.launch: Executable doesn't exist")) calmHost.

(** The launch is rejected with [new Error()], whose message is empty. *)
Definition blankErrorHost : Host :=
  withLaunch (Throw {| message := Some []; stack := Some (lit "Error") |}) calmHost.

(** Everything succeeds until the browser is closed. *)
Definition closeRejectsHost : Host :=
  withClose (Throw (Error "browser.close: Connection closed")) calmHost.

(** The request bodies [{url: ""}] and [{url: "example.com"}]. *)
Definition emptyUrlRequest : Request :=
  {| req_json := Normal (JObject [(lit "url", JString [])]) |}.

Definition exampleRequest : Request :=
  {| req_json := Normal (JObject [(lit "url", JString (lit "example.com"))]) |}.

(** The request body [null]. *)
Definition nullRequest : Request := {| req_json := Normal JNull |}.

(* ===================================================================== *)
(** * Properties *)
(* ===================================================================== *)

(** ** Trimming *)

Lemma trimStart_split s :
  exists pre, s = pre ++ trimStart s /\ forallb isStrWhiteSpaceChar pre = true.
Proof.
  induction s as [|c r IH]; simpl.
  - exists []. auto.
  - destruct (isStrWhiteSpaceChar c) eqn:E.
    + destruct IH as [pre [H1 H2]]. exists (c :: pre). simpl.
      rewrite E, H2. split; [f_equal; exact H1 | reflexivity].
    + exists []. auto.
Qed.

Lemma trimStart_head s c r :
  trimStart s = c :: r -> isStrWhiteSpaceChar c = false.
Proof.
  induction s as [|x l IH]; simpl; [discriminate|].
  destruct (isStrWhiteSpaceChar x) eqn:E; [exact IH|].
  intros [= <- _]. exact E.
Qed.

Lemma trimStart_keeps c r :
  isStrWhiteSpaceChar c = false -> trimStart (c :: r) = c :: r.
Proof. simpl. intros ->. reflexivity. Qed.

Lemma trimStart_fixed t :
  (forall c r, t = c :: r -> isStrWhiteSpaceChar c = false) -> trimStart t = t.
Proof.
  destruct t as [|c r]; [reflexivity|].
  intros H. apply trimStart_keeps. exact (H c r eq_refl).
Qed.

Lemma trimStart_snoc l x :
  isStrWhiteSpaceChar x = false -> trimStart (l ++ [x]) = trimStart l ++ [x].
Proof.
  intros Hx. induction l as [|c r IH]; simpl.
  - rewrite Hx. reflexivity.
  - destruct (isStrWhiteSpaceChar c); [exact IH | reflexivity].
Qed.

Lemma trimEnd_cons x l :
  isStrWhiteSpaceChar x = false -> trimEnd (x :: l) = x :: trimEnd l.
Proof.
  intros Hx. unfold trimEnd. simpl rev at 2.
  rewrite trimStart_snoc by exact Hx.
  rewrite rev_app_distr. reflexivity.
Qed.

Lemma trimEnd_split s :
  exists post, s = trimEnd s ++ post /\ forallb isStrWhiteSpaceChar post = true.
Proof.
  destruct (trimStart_split (rev s)) as [pre [H1 H2]].
  exists (rev pre). split.
  - unfold trimEnd. rewrite <- rev_app_distr, <- H1, rev_involutive. reflexivity.
  - rewrite forallb_forall in *. intros x Hx. apply H2, in_rev. exact Hx.
Qed.

Lemma trimEnd_last s r c : trimEnd s = r ++ [c] -> isStrWhiteSpaceChar c = false.
Proof.
  unfold trimEnd. intros H.
  apply (f_equal (@rev _)) in H.
  rewrite rev_involutive, rev_app_distr in H. simpl in H.
  exact (trimStart_head _ H).
Qed.

Lemma trimEnd_idem s : trimEnd (trimEnd s) = trimEnd s.
Proof.
  unfold trimEnd. rewrite rev_involutive. f_equal.
  apply trimStart_fixed. intros c r H. exact (trimStart_head _ H).
Qed.

Lemma trim_head s c r : trim s = c :: r -> isStrWhiteSpaceChar c = false.
Proof.
  unfold trim. destruct (trimStart s) as [|x l] eqn:E; [discriminate|].
  pose proof (trimStart_head _ E) as Hx.
  rewrite trimEnd_cons by exact Hx. intros [= <- _]. exact Hx.
Qed.

Lemma trim_last s r c : trim s = r ++ [c] -> isStrWhiteSpaceChar c = false.
Proof. unfold trim. apply trimEnd_last. Qed.

Lemma trim_idem s : trim (trim s) = trim s.
Proof.
  unfold trim at 1. rewrite (@trimStart_fixed (trim s)).
  - unfold trim. apply trimEnd_idem.
  - intros c r H. exact (trim_head _ H).
Qed.

Lemma trimEnd_after_prefix p t :
  (forall c, In c p -> isStrWhiteSpaceChar c = false) ->
  trimEnd t = t -> trimEnd (p ++ t) = p ++ t.
Proof.
  intros Hall Ht. induction p as [|x q IH]; simpl.
  - exact Ht.
  - rewrite trimEnd_cons by (apply Hall; left; reflexivity).
    f_equal. apply IH. intros y Hy. apply Hall. right. exact Hy.
Qed.

(** A prefix free of whitespace shields what follows it from [trimStart]
    and is itself kept by [trimEnd]. *)
Lemma trim_after_prefix p t :
  p <> [] ->
  (forall c, In c p -> isStrWhiteSpaceChar c = false) ->
  trimEnd t = t -> trim (p ++ t) = p ++ t.
Proof.
  intros Hp Hall Ht. unfold trim.
  destruct p as [|c p']; [congruence|].
  rewrite <- app_comm_cons.
  rewrite trimStart_keeps by (apply Hall; left; reflexivity).
  rewrite app_comm_cons. apply trimEnd_after_prefix; assumption.
Qed.

Lemma trim_isTrimOf s : isTrimOf s (trim s).
Proof.
  split; [|split].
  - destruct (trimStart_split s) as [pre [H1 H2]].
    destruct (trimEnd_split (trimStart s)) as [post [H3 H4]].
    exists pre, post. split; [|split; assumption].
    unfold trim. rewrite <- H3. exact H1.
  - intros c r H. eapply trim_head; eassumption.
  - intros r c H. eapply trim_last; eassumption.
Qed.

(** ** The scheme test *)

Lemma char_matches_lower c x :
  toAsciiLower c = c ->
  char_matches true c x = true <-> toAsciiLower x = c.
Proof.
  unfold toAsciiLower, char_matches, canonicalize. simpl andb.
  intros Hc. rewrite N.eqb_eq.
  destruct (N.leb_spec 65 c), (N.leb_spec c 90),
    (N.leb_spec 97 c), (N.leb_spec c 122),
    (N.leb_spec 65 x), (N.leb_spec x 90),
    (N.leb_spec 97 x), (N.leb_spec x 122);
    simpl in *; lia.
Qed.

Lemma matchHere_chars p : forall rest s,
  (forall c, In c p -> toAsciiLower c = c) ->
  matchHere true (map Char p ++ rest) s = true <->
  exists q s', s = q ++ s' /\ map toAsciiLower q = p /\
               matchHere true rest s' = true.
Proof.
  induction p as [|c p IH]; intros rest s Hp; simpl.
  - split.
    + intros H. exists [], s. auto.
    + intros [q [s' [-> [Hq H]]]]. apply map_eq_nil in Hq. subst q. exact H.
  - assert (Hc : toAsciiLower c = c) by (apply Hp; left; reflexivity).
    assert (Hp' : forall d, In d p -> toAsciiLower d = d)
      by (intros d Hd; apply Hp; right; exact Hd).
    destruct s as [|x s0].
    + split; [discriminate|].
      intros [q [s' [Hs [Hq _]]]]. destruct q; discriminate.
    + rewrite andb_true_iff, (char_matches_lower x Hc), (IH rest s0 Hp').
      split.
      * intros [Hx [q [s' [-> [Hq H]]]]]. exists (x :: q), s'. simpl.
        rewrite Hx, Hq. auto.
      * intros [q [s' [Hs [Hq H]]]]. destruct q as [|y q]; [discriminate|].
        simpl in Hs, Hq. injection Hs as <- ->. injection Hq as Hx Hq.
        split; [exact Hx|]. exists q, s'. auto.
Qed.

Lemma matchHere_optional c rest s :
  matchHere true (Optional c :: rest) s = true <->
  (exists x s', s = x :: s' /\ char_matches true c x = true /\
                matchHere true rest s' = true) \/
  matchHere true rest s = true.
Proof.
  simpl. rewrite orb_true_iff. split; (intros [H|H]; [left|right; exact H]).
  - destruct s as [|x s']; [discriminate|]. apply andb_true_iff in H.
    exists x, s'. tauto.
  - destruct H as [x [s' [-> [H1 H2]]]]. rewrite H1, H2. reflexivity.
Qed.

Lemma lower_lit_fixed (l : string) :
  forallb (fun c => (toAsciiLower c =? c)%N) (lit l) = true ->
  forall c, In c (lit l) -> toAsciiLower c = c.
Proof.
  intros H c Hc. rewrite forallb_forall in H. apply N.eqb_eq, H, Hc.
Qed.

(** The regular expression accepts exactly the strings that start with
    [http://] or [https://] in any letter case. *)
Lemma test_scheme_re t : test scheme_re t = true <-> carriesScheme t.
Proof.
  unfold test, scheme_re, carriesScheme, startsWithIgnoringCase.
  cbn [source ignoreCase].
  rewrite matchHere_chars by (apply lower_lit_fixed; reflexivity).
  split.
  - intros [q [s' [-> [Hq H]]]].
    change ([Optional 115%N] ++ map Char (lit "://"))
      with (Optional 115%N :: (map Char (lit "://") ++ [])) in H.
    apply matchHere_optional in H.
    destruct H as [[x [s'' [-> [Hx H]]]] | H].
    + apply char_matches_lower in Hx; [|reflexivity].
      apply matchHere_chars in H; [|apply lower_lit_fixed; reflexivity].
      destruct H as [q2 [r [-> [Hq2 _]]]].
      right. exists (q ++ x :: q2), r. split.
      * rewrite <- app_assoc. reflexivity.
      * rewrite map_app. simpl. rewrite Hq, Hx, Hq2. reflexivity.
    + apply matchHere_chars in H; [|apply lower_lit_fixed; reflexivity].
      destruct H as [q2 [r [-> [Hq2 _]]]].
      left. exists (q ++ q2), r. split.
      * rewrite <- app_assoc. reflexivity.
      * rewrite map_app, Hq, Hq2. reflexivity.
  - intros [[p [rest [-> Hp]]] | [p [rest [-> Hp]]]].
    + change (lit "http://") with (lit "http" ++ lit "://") in Hp.
      apply map_eq_app in Hp. destruct Hp as [q [q2 [-> [Hq Hq2]]]].
      exists q, (q2 ++ rest). split; [rewrite app_assoc; reflexivity|].
      split; [exact Hq|].
      change ([Optional 115%N] ++ map Char (lit "://"))
        with (Optional 115%N :: (map Char (lit "://") ++ [])).
      apply matchHere_optional. right.
      apply matchHere_chars; [apply lower_lit_fixed; reflexivity|].
      exists q2, rest. auto.
    + change (lit "https://") with (lit "http" ++ 115%N :: lit "://") in Hp.
      apply map_eq_app in Hp. destruct Hp as [q [q2 [-> [Hq Hq2]]]].
      destruct q2 as [|x q2]; [discriminate|]. simpl in Hq2.
      injection Hq2 as Hx Hq2.
      exists q, (x :: q2 ++ rest). split; [rewrite <- app_assoc; reflexivity|].
      split; [exact Hq|].
      change ([Optional 115%N] ++ map Char (lit "://"))
        with (Optional 115%N :: (map Char (lit "://") ++ [])).
      apply matchHere_optional. left. exists x, (q2 ++ rest).
      split; [reflexivity|]. split.
      * apply char_matches_lower; [reflexivity | exact Hx].
      * apply matchHere_chars; [apply lower_lit_fixed; reflexivity|].
        exists q2, rest. auto.
Qed.

Lemma test_scheme_re_https t : test scheme_re (lit "https://" ++ t) = true.
Proof.
  apply test_scheme_re. right. exists (lit "https://"), t. auto.
Qed.

(** ** C3 *)

(** C3. For every input string, [normalizeUrl] first trims surrounding
    whitespace; if the trimmed string does not start with [http://] or
    [https://], letter case ignored, it returns the trimmed string with
    [https://] prepended, and otherwise returns the trimmed string
    unchanged. *)
Theorem normalizeUrl_trims_then_prepends_https :
  forall input : jsstring,
    isTrimOf input (trim input) /\
    (~ carriesScheme (trim input) ->
     normalizeUrl input = lit "https://" ++ trim input) /\
    (carriesScheme (trim input) -> normalizeUrl input = trim input).
Proof.
  intros input. split; [apply trim_isTrimOf|].
  unfold normalizeUrl. cbv zeta.
  destruct (test scheme_re (trim input)) eqn:E; simpl; split; intros H.
  - exfalso. apply H, test_scheme_re, E.
  - reflexivity.
  - reflexivity.
  - apply test_scheme_re in H. congruence.
Qed.

(** ** C9 *)

(** C9. The URL normalizer is idempotent: normalizing a normalized URL
    leaves it unchanged. *)
Theorem normalizeUrl_idempotent :
  forall s : jsstring, normalizeUrl (normalizeUrl s) = normalizeUrl s.
Proof.
  intros s. unfold normalizeUrl at 2 3. cbv zeta.
  destruct (test scheme_re (trim s)) eqn:E; simpl negb; cbv iota.
  - unfold normalizeUrl. cbv zeta. rewrite trim_idem, E. reflexivity.
  - unfold normalizeUrl. cbv zeta.
    rewrite trim_after_prefix.
    + rewrite test_scheme_re_https. reflexivity.
    + discriminate.
    + intros c Hc. simpl in Hc.
      repeat (destruct Hc as [<- | Hc]; [reflexivity|]). destruct Hc.
    + unfold trim. apply trimEnd_idem.
Qed.

Example normalizeUrl_bare_host :
  normalizeUrl (lit "  example.com ") = lit "https://example.com".
Proof. reflexivity. Qed.

Example normalizeUrl_upper_case_scheme :
  normalizeUrl (lit " HTTP://example.com/a b") = lit "HTTP://example.com/a b".
Proof. reflexivity. Qed.

Example normalizeUrl_other_scheme :
  normalizeUrl (lit "ftp://example.com") = lit "https://ftp://example.com".
Proof. reflexivity. Qed.

(** ** The scan, stage by stage *)

Lemma quiet_ret A (a : A) : quiet (ret a).
Proof. intros f. split; [reflexivity|]. exists []. rewrite app_nil_r. auto. Qed.

Lemma quiet_throw A e : quiet (@throw Frame A e).
Proof. intros f. split; [reflexivity|]. exists []. rewrite app_nil_r. auto. Qed.

Lemma quiet_perform A (c : call) (r : Completion A) :
  quietEvent {| what := c; settled := isNormal r |} = true ->
  quiet (perform c r).
Proof.
  intros H f. split; [reflexivity|]. simpl.
  eexists. split; [reflexivity|]. simpl. rewrite H. reflexivity.
Qed.

Lemma quiet_bind A B (m : Async Frame A) (k : A -> Async Frame B) :
  quiet m -> (forall a, quiet (k a)) -> quiet (bind m k).
Proof.
  intros Hm Hk f. unfold bind. specialize (Hm f).
  destruct (m f) as [[a|e] f1]; simpl in Hm.
  - destruct Hm as [Hb [d [Hl Hd]]]. destruct (Hk a f1) as [Hb' [d' [Hl' Hd']]].
    split; [congruence|]. exists (d ++ d'). split.
    + rewrite Hl', Hl, app_assoc. reflexivity.
    + rewrite forallb_app, Hd, Hd'. reflexivity.
  - exact Hm.
Qed.

Lemma quiet_cast now url r : quiet (toScanResponse_cast now url r).
Proof. destruct r; [apply quiet_ret | apply quiet_throw]. Qed.

(** The frame after the [try] block: the launch is logged first, the local
    [browser] holds what it returned, and nothing else touches a browser. *)
Lemma scan_try_frame h t f :
  exists d,
    forallb quietEvent d = true /\
    (isNormal (launch h) = false -> d = []) /\
    snd (scan_try h t f) =
      {| browser := match launch h with
                    | Normal b => Some b
                    | Throw _ => browser f
                    end;
         log := log f ++ launchEvent (isNormal (launch h)) :: d |}.
Proof.
  unfold scan_try. unfold bind at 1. unfold perform at 1.
  destruct (launch h) as [b|e]; cbn [isNormal].
  - unfold bind at 1. unfold set_browser at 1.
    match goal with
    | |- context [snd (?m ?f0)] =>
        assert (Q : quiet m)
          by (repeat first [ apply quiet_bind; [|intro]
                           | apply quiet_perform; reflexivity
                           | apply quiet_cast ]);
        destruct (Q f0) as [Hb [d [Hl Hd]]];
        destruct (snd (m f0)) as [br lg]
    end.
    cbn [log browser] in Hb, Hl. subst br lg.
    exists d. split; [exact Hd|]. split; [discriminate|].
    rewrite <- app_assoc. reflexivity.
  - exists []. cbn. auto.
Qed.

(** The [try] block completes as the stages do. *)
Lemma scan_try_completion h t f :
  fst (scan_try h t f) =
    match stages h t with
    | Normal result => Normal (toScanResponse (toISOString_now h) t result)
    | Throw e => Throw e
    end.
Proof.
  unfold scan_try, stages, andThen, bind, perform, set_browser.
  destruct (launch h); [|reflexivity].
  destruct (newContext h); [|reflexivity].
  destruct (newPage h); [|reflexivity].
  destruct (setDefaultTimeout h); [|reflexivity].
  destruct (setDefaultNavigationTimeout h); [|reflexivity].
  destruct (goto h t); [|reflexivity].
  destruct (waitForTimeout h); [|reflexivity].
  destruct (cwd h) as [d|]; [|reflexivity].
  destruct (addScriptTag h _); [|reflexivity].
  destruct (evaluate h) as [[r|]|]; reflexivity.
Qed.

(** One invocation, start to end. *)
Lemma scanWithAxe_run h url w :
  exists d,
    forallb quietEvent d = true /\
    scanWithAxe h url w =
      match launch h with
      | Throw e =>
          (Normal (failureResponse h (normalizeUrl url) e),
           w ++ [launchEvent false])
      | Normal b =>
          (match close h with
           | Normal _ => Normal (expectedResponse h (normalizeUrl url))
           | Throw e => Throw e
           end,
           w ++ launchEvent true :: d ++ [closeEvent b (isNormal (close h))])
      end.
Proof.
  unfold scanWithAxe. cbv zeta. set (t := normalizeUrl url).
  set (f0 := {| browser := None; log := w |}).
  destruct (scan_try_frame h t f0) as [d [Hd [Hnil Hf]]].
  pose proof (scan_try_completion h t f0) as Hc.
  exists d. split; [exact Hd|].
  unfold try_catch_finally, expectedResponse.
  destruct (scan_try h t f0) as [c f1]. cbn [fst snd] in *.
  subst f1 f0. cbn [log browser].
  subst c.
  unfold scan_catch, scan_finally, bind, get_browser, perform, ret, failureResponse.
  destruct (launch h) as [b|e] eqn:El; cbn [andThen isNormal browser log].
  - destruct (stages h t) as [r|e]; destruct (close h) as [[]|e'];
      cbn [isNormal fst snd log browser];
      rewrite <- app_assoc; reflexivity.
  - rewrite (Hnil eq_refl).
    assert (Hs : stages h t = Throw e) by (unfold stages; rewrite El; reflexivity).
    rewrite Hs. reflexivity.
Qed.

Lemma stages_launch_rejected h t e : launch h = Throw e -> stages h t = Throw e.
Proof. intros H. unfold stages. rewrite H. reflexivity. Qed.

(** What a scan returns, when it returns. *)
Lemma scanWithAxe_returned h url w r :
  fst (scanWithAxe h url w) = Normal r ->
  r = expectedResponse h (normalizeUrl url).
Proof.
  destruct (scanWithAxe_run h url w) as [d [_ ->]].
  destruct (launch h) as [b|e] eqn:El; cbn [fst].
  - destruct (close h); [|discriminate]. intros [= <-]. reflexivity.
  - intros [= <-]. unfold expectedResponse.
    rewrite (stages_launch_rejected h _ El). reflexivity.
Qed.

(** ** C1 *)

(** C1, as amended.  Whenever the release of the acquired browser does not
    itself fail, [scanWithAxe] returns a [ScanResponse]; and the first
    failure of browser acquisition, navigation, script injection, audit
    execution or shaping is turned into the returned value
    [{ok: false, url, timestamp, violations: [], error: message}]. *)
Theorem scanWithAxe_returns_unless_release_fails :
  forall (h : Host) (url : jsstring) (w : World),
    releaseSucceeds h ->
    exists r,
      fst (scanWithAxe h url w) = Normal r /\
      forall e,
        firstFailure h (normalizeUrl url) = Some e ->
        r = failureResponse h (normalizeUrl url) e.
Proof.
  intros h url w Hrel.
  exists (expectedResponse h (normalizeUrl url)). split.
  - destruct (scanWithAxe_run h url w) as [d [_ ->]].
    unfold releaseSucceeds in Hrel.
    destruct (launch h) as [b|e] eqn:El; cbn [fst].
    + specialize (Hrel eq_refl). destruct (close h); [reflexivity|discriminate].
    + unfold expectedResponse.
      rewrite (stages_launch_rejected h _ El). reflexivity.
  - intros e. unfold firstFailure, expectedResponse.
    destruct (stages h (normalizeUrl url)); [discriminate|].
    intros [= ->]. reflexivity.
Qed.

Lemma scanWithAxe_returns_unless_release_fails_witness :
  exists r,
    fst (scanWithAxe unresolvedHost (lit "no-such-host.invalid") []) = Normal r /\
    forall e,
      firstFailure unresolvedHost (normalizeUrl (lit "no-such-host.invalid")) = Some e ->
      r = failureResponse unresolvedHost (normalizeUrl (lit "no-such-host.invalid")) e.
Proof.
  apply (@scanWithAxe_returns_unless_release_fails unresolvedHost
           (lit "no-such-host.invalid") []).
  unfold releaseSucceeds. intros _. reflexivity.
Defined.

(** C1 as stated fails: when [browser.close()] rejects in the [finally]
    block, the rejection leaves [scanWithAxe], although every stage of the
    scan succeeded. *)
Lemma scanWithAxe_raises_when_close_rejects :
  fst (scanWithAxe closeRejectsHost (lit "example.com") []) =
    Throw (Error "browser.close: Connection closed") /\
  ~ exists r, fst (scanWithAxe closeRejectsHost (lit "example.com") []) = Normal r.
Proof.
  assert (H : fst (scanWithAxe closeRejectsHost (lit "example.com") []) =
              Throw (Error "browser.close: Connection closed"))
    by (vm_compute; reflexivity).
  split; [exact H|]. intros [r Hr]. rewrite H in Hr. discriminate.
Qed.

(** [scanWithAxe] raises exactly when a browser was launched and closing
    it is rejected, and then with that rejection. *)
Theorem scanWithAxe_raises_iff_close_rejects :
  forall (h : Host) (url : jsstring) (w : World) (e : thrown),
    fst (scanWithAxe h url w) = Throw e <->
    isNormal (launch h) = true /\ close h = Throw e.
Proof.
  intros h url w e.
  destruct (scanWithAxe_run h url w) as [d [_ ->]].
  destruct (launch h) as [b|e0]; cbn [fst isNormal].
  - destruct (close h) as [[]|e1]; split.
    + discriminate.
    + intros [_ H]. discriminate.
    + intros [= ->]. auto.
    + intros [_ [= ->]]. reflexivity.
  - split; [discriminate|]. intros [H _]. discriminate.
Qed.

(** ** C2 *)

(** C2, as amended.  Every [ScanResponse] that [scanWithAxe] returns has:
    with [ok = false], no violations and an [error] that is present, and
    non-empty unless the failure that was caught carries the empty string
    as its message; with [ok = true], no [error]. *)
Theorem scanWithAxe_ok_error_invariant :
  forall (h : Host) (url : jsstring) (w : World) (r : ScanResponse),
    fst (scanWithAxe h url w) = Normal r ->
    okErrorPresent r /\
    ((forall e, firstFailure h (normalizeUrl url) = Some e -> message e <> Some []) ->
     okErrorInvariant r).
Proof.
  intros h url w r Hr. apply scanWithAxe_returned in Hr. subst r.
  unfold okErrorPresent, okErrorInvariant, expectedResponse, firstFailure.
  destruct (stages h (normalizeUrl url)) as [res|e]; cbn.
  - split; [|intros _]; (split; [discriminate|reflexivity]).
  - split; [|intros Hm]; (split; [intros _|discriminate]).
    + split; [reflexivity|discriminate].
    + split; [reflexivity|]. eexists. split; [reflexivity|].
      specialize (Hm e eq_refl). destruct (message e) as [m|]; cbn.
      * intros ->. apply Hm. reflexivity.
      * discriminate.
Qed.

Lemma scanWithAxe_ok_error_invariant_witness :
  okErrorPresent (failureResponse unresolvedHost (lit "https://no-such-host.invalid")
                    (Error "page.goto: net::ERR_NAME_NOT_RESOLVED")) /\
  okErrorInvariant (failureResponse unresolvedHost (lit "https://no-such-host.invalid")
                      (Error "page.goto: net::ERR_NAME_NOT_RESOLVED")).
Proof.
  assert (H : fst (scanWithAxe unresolvedHost (lit "no-such-host.invalid") []) =
              Normal (failureResponse unresolvedHost (lit "https://no-such-host.invalid")
                        (Error "page.goto: net::ERR_NAME_NOT_RESOLVED")))
    by (vm_compute; reflexivity).
  destruct (scanWithAxe_ok_error_invariant unresolvedHost
              (lit "no-such-host.invalid") [] H) as [H1 H2].
  split; [exact H1|]. apply H2.
  intros e He. vm_compute in He. injection He as <-. discriminate.
Defined.

(** C2 as stated fails: a launch rejected with [new Error()] is answered
    with [ok = false] and [error] the empty string. *)
Lemma scanWithAxe_blank_error_breaks_invariant :
  exists r,
    fst (scanWithAxe blankErrorHost (lit "example.com") []) = Normal r /\
    ok r = false /\ error r = Some [] /\ ~ okErrorInvariant r.
Proof.
  eexists. split; [vm_compute; reflexivity|]. cbn.
  split; [reflexivity|]. split; [reflexivity|].
  intros [H _]. destruct (H eq_refl) as [_ [m [Hm Hne]]].
  injection Hm as <-. apply Hne. reflexivity.
Qed.

(** ** Counting browsers *)

Lemma acquisitions_app w1 w2 :
  acquisitions (w1 ++ w2) = acquisitions w1 + acquisitions w2.
Proof. unfold acquisitions. rewrite filter_app, length_app. reflexivity. Qed.

Lemma closeCalls_app w1 w2 :
  closeCalls (w1 ++ w2) = closeCalls w1 + closeCalls w2.
Proof. unfold closeCalls. rewrite filter_app, length_app. reflexivity. Qed.

Lemma releases_app w1 w2 : releases (w1 ++ w2) = releases w1 + releases w2.
Proof. unfold releases. rewrite filter_app, length_app. reflexivity. Qed.

(** Only a call of [browser.close()] can release. *)
Lemma isRelease_isCloseCall e : isCloseCall e = false -> isRelease e = false.
Proof. unfold isCloseCall, isRelease. destruct (what e); congruence. Qed.

Lemma quiet_counts d :
  forallb quietEvent d = true ->
  acquisitions d = 0 /\ closeCalls d = 0 /\ releases d = 0.
Proof.
  unfold acquisitions, closeCalls, releases.
  induction d as [|e d IH]; simpl; [auto|].
  unfold quietEvent at 1. rewrite !andb_true_iff, !negb_true_iff.
  intros [[Ha Hc] Hd]. rewrite Ha, Hc, (isRelease_isCloseCall e Hc). auto.
Qed.

Lemma openBrowsers_app w1 : forall w2 n m,
  openBrowsers w1 n = Some m -> openBrowsers (w1 ++ w2) n = openBrowsers w2 m.
Proof.
  induction w1 as [|e w1 IH]; simpl; intros w2 n m H.
  - injection H as <-. reflexivity.
  - destruct (isAcquisition e); [eauto|].
    destruct (isRelease e); [|eauto].
    destruct n; [discriminate|eauto].
Qed.

Lemma openBrowsers_quiet d : forall n,
  forallb quietEvent d = true -> openBrowsers d n = Some n.
Proof.
  induction d as [|e d IH]; simpl; intros n; [reflexivity|].
  unfold quietEvent at 1. rewrite !andb_true_iff, !negb_true_iff.
  intros [[Ha Hc] Hd]. rewrite Ha, (isRelease_isCloseCall e Hc). auto.
Qed.

(** The events of one invocation: at most one acquisition, a call of
    [browser.close()] for it that ends the invocation, a release when that
    call resolves, and the browser still open when it does not. *)
Lemma scanWithAxe_events h url w :
  exists d,
    snd (scanWithAxe h url w) = w ++ d /\
    acquisitions d = (if isNormal (launch h) then 1 else 0) /\
    closeCalls d = acquisitions d /\
    releases d = (if isNormal (close h) then acquisitions d else 0) /\
    (forall n, openBrowsers d n = Some (n + acquisitions d - releases d)) /\
    (forall b, launch h = Normal b ->
       exists q, d = launchEvent true :: q ++ [closeEvent b (isNormal (close h))] /\
                 forallb quietEvent q = true).
Proof.
  destruct (scanWithAxe_run h url w) as [q [Hq ->]].
  destruct (@quiet_counts q Hq) as [Ha [Hc Hr]].
  destruct (launch h) as [b|e]; cbn [snd isNormal].
  - exists (launchEvent true :: q ++ [closeEvent b (isNormal (close h))]).
    split; [reflexivity|].
    change (launchEvent true :: q ++ [closeEvent b (isNormal (close h))])
      with ([launchEvent true] ++ q ++ [closeEvent b (isNormal (close h))]).
    rewrite !acquisitions_app, !closeCalls_app, !releases_app, Ha, Hc, Hr.
    split; [reflexivity|]. split; [reflexivity|].
    split; [destruct (isNormal (close h)); reflexivity|]. split.
    + intros n. cbn [app openBrowsers].
      change (isAcquisition (launchEvent true)) with true. cbv iota.
      rewrite (@openBrowsers_app q [closeEvent b (isNormal (close h))] _ _
                 (@openBrowsers_quiet q (S n) Hq)).
      destruct (isNormal (close h)); cbn; f_equal; lia.
    + intros b' [= <-]. exists q. auto.
  - exists [launchEvent false]. split; [reflexivity|].
    split; [reflexivity|]. split; [reflexivity|].
    split; [destruct (isNormal (close h)); reflexivity|].
    split; [intros n; cbn; f_equal; lia|discriminate].
Qed.

Lemma scanAll_events calls : forall w,
  exists d,
    snd (scanAll calls w) = w ++ d /\
    acquisitions d = List.length (filter launched calls) /\
    closeCalls d = acquisitions d /\
    releases d = List.length (filter released calls) /\
    releases d <= acquisitions d /\
    (forall n, openBrowsers d n = Some (n + acquisitions d - releases d)).
Proof.
  induction calls as [|[h url] calls IH]; intros w; cbn [scanAll].
  - exists []. rewrite app_nil_r. cbn. repeat split; try lia.
    intros n. f_equal. lia.
  - destruct (scanWithAxe_events h url w) as [d1 [H1 [A1 [C1 [R1 [O1 _]]]]]].
    destruct (scanWithAxe h url w) as [c w1]. cbn [snd] in H1. subst w1.
    destruct (IH (w ++ d1)) as [d2 [H2 [A2 [C2 [R2 [L2 O2]]]]]].
    destruct (scanAll calls (w ++ d1)) as [cs w2]. cbn [snd] in *. subst w2.
    exists (d1 ++ d2). rewrite app_assoc. split; [reflexivity|].
    assert (L1 : releases d1 <= acquisitions d1)
      by (rewrite R1; destruct (isNormal (close h)); lia).
    assert (E1 : acquisitions (d1 ++ d2) =
                 List.length (filter launched ((h, url) :: calls))).
    { rewrite acquisitions_app, A1, A2. cbn [filter]. unfold launched at 2.
      cbn [fst]. destruct (isNormal (launch h)); reflexivity. }
    assert (E2 : releases (d1 ++ d2) =
                 List.length (filter released ((h, url) :: calls))).
    { rewrite releases_app, R1, A1, R2. cbn [filter].
      unfold released at 2, launched. cbn [fst].
      destruct (isNormal (launch h)), (isNormal (close h)); reflexivity. }
    split; [exact E1|]. split; [|split; [exact E2|split]].
    + rewrite closeCalls_app, acquisitions_app. congruence.
    + rewrite releases_app, acquisitions_app. lia.
    + intros n. rewrite (@openBrowsers_app d1 d2 _ _ (O1 n)), O2.
      rewrite releases_app, acquisitions_app. f_equal. lia.
Qed.

Lemma filter_length_permutation (p : event -> bool) w w' :
  Permutation w w' ->
  List.length (filter p w) = List.length (filter p w').
Proof.
  induction 1 as [|e l l' _ IH|e1 e2 l|l1 l2 l3 _ IH1 _ IH2]; simpl.
  - reflexivity.
  - destruct (p e); simpl; congruence.
  - destruct (p e1), (p e2); reflexivity.
  - congruence.
Qed.

(** Any interleaving of a log has the same counts. *)
Lemma counts_of_interleaving w w' :
  Permutation w w' ->
  acquisitions w' = acquisitions w /\ closeCalls w' = closeCalls w /\
  releases w' = releases w.
Proof.
  intros H. unfold acquisitions, closeCalls, releases.
  repeat split; symmetry; apply filter_length_permutation, H.
Qed.

(** Where every close that is made resolves, the calls that release are
    the calls that launch. *)
Lemma released_launched calls :
  Forall (fun c => releaseSucceeds (fst c)) calls ->
  filter released calls = filter launched calls.
Proof.
  induction 1 as [|c calls Hc _ IH]; cbn [filter]; [reflexivity|].
  unfold released at 1. unfold releaseSucceeds in Hc. fold (launched c) in Hc.
  destruct (launched c); cbn [andb]; [|exact IH].
  rewrite (Hc eq_refl), IH. reflexivity.
Qed.

Lemma released_all calls :
  forallb released calls = true ->
  filter released calls = calls /\ filter launched calls = calls.
Proof.
  induction calls as [|c calls IH]; cbn [forallb filter]; [auto|].
  rewrite andb_true_iff. intros [Hc Hall]. destruct (IH Hall) as [-> ->].
  rewrite Hc. unfold released in Hc. apply andb_true_iff in Hc.
  destruct Hc as [-> _]. auto.
Qed.

(** ** C4 *)

(** C4, as amended.  Each invocation of [scanWithAxe] acquires at most one
    browser, and on every exit path it calls [browser.close()] on a browser
    that it acquired, as its last call; the browser is released when that
    call resolves, and is left open when it is rejected.  N calls make one
    acquisition for every call whose launch succeeded, one call of
    [browser.close()] for every acquisition, and one release for every
    acquisition whose close resolved; what stays open is the acquisitions
    less the releases.  Where every close that is made resolves there are
    as many releases as acquisitions and no browser is left open, and
    where every launch and every close succeeds there are N of each. *)
Theorem scanWithAxe_releases_what_it_acquires :
  forall calls : list (Host * jsstring),
    (forall h url w,
        exists d,
          snd (scanWithAxe h url w) = w ++ d /\
          acquisitions d <= 1 /\
          closeCalls d = acquisitions d /\
          releases d = (if isNormal (close h) then acquisitions d else 0) /\
          (forall b, launch h = Normal b ->
             exists q, d = launchEvent true :: q ++ [closeEvent b (isNormal (close h))] /\
                       forallb quietEvent q = true)) /\
    acquisitions (snd (scanAll calls [])) = List.length (filter launched calls) /\
    closeCalls (snd (scanAll calls [])) = acquisitions (snd (scanAll calls [])) /\
    releases (snd (scanAll calls [])) = List.length (filter released calls) /\
    releases (snd (scanAll calls [])) <= acquisitions (snd (scanAll calls [])) /\
    acquisitions (snd (scanAll calls [])) <= List.length calls /\
    openBrowsers (snd (scanAll calls [])) 0 =
      Some (acquisitions (snd (scanAll calls [])) - releases (snd (scanAll calls []))) /\
    (Forall (fun c => releaseSucceeds (fst c)) calls ->
     releases (snd (scanAll calls [])) = acquisitions (snd (scanAll calls [])) /\
     openBrowsers (snd (scanAll calls [])) 0 = Some 0) /\
    (forallb released calls = true ->
     acquisitions (snd (scanAll calls [])) = List.length calls /\
     releases (snd (scanAll calls [])) = List.length calls /\
     openBrowsers (snd (scanAll calls [])) 0 = Some 0).
Proof.
  intros calls.
  split.
  { intros h url w.
    destruct (scanWithAxe_events h url w) as [d [H [A [C [R [_ L]]]]]].
    exists d. split; [exact H|]. split; [|split; [|split]]; try assumption.
    rewrite A. destruct (isNormal (launch h)); lia. }
  destruct (scanAll_events calls []) as [d [H [A [C [R [L O]]]]]].
  rewrite H. cbn [app].
  split; [exact A|]. split; [exact C|]. split; [exact R|]. split; [exact L|].
  split; [rewrite A; apply filter_length_le|].
  split; [rewrite (O 0); reflexivity|]. split.
  - intros Hall. assert (E : releases d = acquisitions d)
      by (rewrite R, A, (released_launched Hall); reflexivity).
    split; [exact E|]. rewrite (O 0), E. f_equal. lia.
  - intros Hall. destruct (released_all calls Hall) as [Er El].
    assert (Ea : acquisitions d = List.length calls) by (rewrite A, El; reflexivity).
    assert (Erl : releases d = List.length calls) by (rewrite R, Er; reflexivity).
    split; [exact Ea|]. split; [exact Erl|].
    rewrite (O 0), Ea, Erl. f_equal. lia.
Qed.

(** C4 as stated fails, in two ways.  A call whose launch is rejected
    acquires nothing and releases nothing, so one call does not make one
    acquisition.  And a call whose [browser.close()] is rejected has
    acquired a browser that it does not release: one acquisition, no
    release, and one browser left open. *)
Lemma scanWithAxe_acquisitions_and_releases_fall_short :
  (acquisitions (snd (scanAll [(noBrowserHost, lit "example.com")] [])) = 0 /\
   releases (snd (scanAll [(noBrowserHost, lit "example.com")] [])) = 0 /\
   acquisitions (snd (scanAll [(noBrowserHost, lit "example.com")] []))
     <> List.length [(noBrowserHost, lit "example.com")]) /\
  (acquisitions (snd (scanAll [(closeRejectsHost, lit "example.com")] [])) = 1 /\
   closeCalls (snd (scanAll [(closeRejectsHost, lit "example.com")] [])) = 1 /\
   releases (snd (scanAll [(closeRejectsHost, lit "example.com")] [])) = 0 /\
   openBrowsers (snd (scanAll [(closeRejectsHost, lit "example.com")] [])) 0 = Some 1).
Proof. vm_compute. repeat split; discriminate. Qed.

(** Four calls, of which one scans its page, one finds no browser, one has
    its [browser.close()] rejected and one cannot reach its page: three
    browsers are acquired and each is asked to close, two are released and
    one is left open. *)
Example scanAll_mixed_outcomes :
  acquisitions (snd (scanAll [(calmHost, lit "example.com");
                              (noBrowserHost, lit "example.com");
                              (closeRejectsHost, lit "example.com");
                              (unresolvedHost, lit "no-such-host.invalid")] [])) = 3 /\
  closeCalls (snd (scanAll [(calmHost, lit "example.com");
                            (noBrowserHost, lit "example.com");
                            (closeRejectsHost, lit "example.com");
                            (unresolvedHost, lit "no-such-host.invalid")] [])) = 3 /\
  releases (snd (scanAll [(calmHost, lit "example.com");
                          (noBrowserHost, lit "example.com");
                          (closeRejectsHost, lit "example.com");
                          (unresolvedHost, lit "no-such-host.invalid")] [])) = 2 /\
  openBrowsers (snd (scanAll [(calmHost, lit "example.com");
                              (noBrowserHost, lit "example.com");
                              (closeRejectsHost, lit "example.com");
                              (unresolvedHost, lit "no-such-host.invalid")] [])) 0
    = Some 1.
Proof. vm_compute. repeat split. Qed.

(** ** The endpoint *)

(** Every invocation of the orchestrator leaves its launch in the log. *)
Lemma scanWithAxe_logs h url w : snd (scanWithAxe h url w) <> w.
Proof.
  destruct (scanWithAxe_run h url w) as [q [_ ->]].
  destruct (launch h); cbn [snd]; intros H;
    apply (f_equal (@List.length _)) in H; rewrite length_app in H;
    cbn [List.length] in H; lia.
Qed.

Lemma typeof_string url :
  jsstring_eqb (typeof url) (lit "string") = true ->
  exists s, url = Some (JString s).
Proof.
  destruct url as [[| | |s| |]|]; try (vm_compute; discriminate).
  intros _. exists s. reflexivity.
Qed.

(** ** C5 *)

(** C5, as amended.  For every request body that is JSON other than the
    value [null], so that [url] can be read from it, and whose [url] is
    missing, not a string, or the empty string, the endpoint answers with
    status 400 and the body
    [{ok: false, violations: [], error: "Missing url"}], and the
    orchestrator is not invoked: the log is left as it was, which no
    invocation does. *)
Theorem POST_missing_url_is_400 :
  forall (h : Host) (req : Request) (w : World) (parsed : json)
         (url : option json),
    req_json req = Normal parsed ->
    destructure_url h parsed = Normal url ->
    urlUnusable url ->
    POST h req w = (Normal {| status := 400; body := missingUrl |}, w) /\
    error missingUrl = Some (lit "Missing url") /\
    forall u, snd (scanWithAxe h u w) <> snd (POST h req w).
Proof.
  intros h req w parsed url Hreq Hurl Hbad.
  assert (H : POST h req w = (Normal {| status := 400; body := missingUrl |}, w)).
  { unfold POST, try_catch, POST_try, bind, await.
    rewrite Hreq, Hurl.
    assert (G : negb (truthy url) ||
                negb (jsstring_eqb (typeof url) (lit "string")) = true).
    { destruct Hbad as [-> | [Hns | ->]]; [reflexivity| |reflexivity].
      apply orb_true_iff. right. apply negb_true_iff.
      destruct (jsstring_eqb (typeof url) (lit "string")) eqn:E; [|reflexivity].
      destruct (typeof_string url E) as [s ->]. exfalso. exact (Hns s eq_refl). }
    rewrite G. reflexivity. }
  split; [exact H|]. split; [reflexivity|].
  intros u. rewrite H. apply scanWithAxe_logs.
Qed.

Lemma POST_missing_url_is_400_witness :
  POST calmHost emptyUrlRequest [] =
    (Normal {| status := 400; body := missingUrl |}, []) /\
  error missingUrl = Some (lit "Missing url") /\
  forall u, snd (scanWithAxe calmHost u []) <> snd (POST calmHost emptyUrlRequest []).
Proof.
  apply (@POST_missing_url_is_400 calmHost emptyUrlRequest []
           (JObject [(lit "url", JString [])]) (Some (JString []))).
  - reflexivity.
  - vm_compute. reflexivity.
  - right. right. reflexivity.
Defined.

(** C5 as stated fails: the body [null] has no [url] field, but reading
    [url] from it throws, and the handler's [catch] answers 500 with the
    text of the TypeError. *)
Lemma POST_null_body_is_500 :
  exists resp,
    fst (POST calmHost nullRequest []) = Normal resp /\
    status resp = 500%Z /\
    ok (body resp) = false /\
    error (body resp) <> Some (lit "Missing url") /\
    snd (POST calmHost nullRequest []) = [].
Proof.
  eexists. split; [reflexivity|]. cbn [status body ok error].
  split; [reflexivity|]. split; [reflexivity|]. split; [|reflexivity].
  intros H. vm_compute in H. discriminate.
Qed.

(** ** C6 *)

(** C6. For every request whose [url] is a non-empty string, the endpoint
    invokes the orchestrator on it, answers 200 when the result has
    [ok = true] and 500 when it has [ok = false], and passes the result
    through as the body unchanged. *)
Theorem POST_maps_ok_to_status :
  forall (h : Host) (req : Request) (w : World) (parsed : json) (s : jsstring),
    req_json req = Normal parsed ->
    destructure_url h parsed = Normal (Some (JString s)) ->
    s <> [] ->
    exists resp,
      POST h req w = (Normal resp, snd (scanWithAxe h s w)) /\
      status resp = (if ok (body resp) then 200 else 500)%Z /\
      forall r, fst (scanWithAxe h s w) = Normal r -> body resp = r.
Proof.
  intros h req w parsed s Hreq Hurl Hs.
  unfold POST, try_catch, POST_try, bind, await.
  rewrite Hreq, Hurl.
  assert (G : negb (truthy (Some (JString s))) ||
              negb (jsstring_eqb (typeof (Some (JString s))) (lit "string")) = false).
  { destruct s; [congruence|]. reflexivity. }
  rewrite G.
  destruct (scanWithAxe h s w) as [[r|e] w']; cbn [fst snd].
  - destruct (ok r) eqn:E; cbn [negb]; eexists; (split; [reflexivity|]);
      cbn [status body]; rewrite E; (split; [reflexivity|]);
      intros r' [= <-]; reflexivity.
  - eexists. split; [reflexivity|]. split; [reflexivity|]. discriminate.
Qed.

Lemma POST_maps_ok_to_status_witness :
  exists resp,
    POST calmHost exampleRequest [] =
      (Normal resp, snd (scanWithAxe calmHost (lit "example.com") [])) /\
    status resp = (if ok (body resp) then 200 else 500)%Z /\
    forall r, fst (scanWithAxe calmHost (lit "example.com") []) = Normal r ->
              body resp = r.
Proof.
  apply (@POST_maps_ok_to_status calmHost exampleRequest []
           (JObject [(lit "url", JString (lit "example.com"))])
           (lit "example.com")).
  - reflexivity.
  - vm_compute. reflexivity.
  - discriminate.
Defined.

(** ** The endpoint beyond the claims *)

(** No throw leaves the handler: whatever the request and the host do, it
    answers with a response. *)
Theorem POST_always_responds :
  forall (h : Host) (req : Request) (w : World),
    exists resp, fst (POST h req w) = Normal resp.
Proof.
  intros h req w. unfold POST, try_catch.
  destruct (POST_try h req w) as [[resp|e] w']; eexists; reflexivity.
Qed.

(** A body that is not JSON, and the JSON value [null], make the handler
    throw before it looks at [url]; its [catch] answers 500 with the
    message, a line break and the stack of what was thrown, and the
    orchestrator is not invoked.  For a body that is not JSON these are
    the message and the stack of the rejection of [req.json()], with
    "Scan failed" for a message and the empty string for a stack that is
    missing; for [null] they are those of the TypeError of the
    destructuring, whose stack is its name and message on a first line
    and then the frames. *)
Theorem POST_unreadable_body_is_500 :
  forall (h : Host) (w : World),
    (forall e,
        POST h {| req_json := Throw e |} w =
          (Normal {| status := 500;
                     body := {| ok := false;
                                url := None;
                                timestamp := None;
                                violations := [];
                                error := Some ((message e ?? lit "Scan failed")
                                               ++ [10%N] ++ (stack e ?? [])) |} |},
           w)) /\
    POST h {| req_json := Normal JNull |} w =
      (Normal {| status := 500;
                 body := {| ok := false;
                            url := None;
                            timestamp := None;
                            violations := [];
                            error :=
                              Some (lit "Cannot destructure property 'url' of '(intermediate value)' as it is null."
                                    ++ [10%N]
                                    ++ lit "TypeError: Cannot destructure property 'url' of '(intermediate value)' as it is null."
                                    ++ stackTrace h) |} |},
       w) /\
    (forall u, snd (scanWithAxe h u w) <> w).
Proof.
  intros h w. split; [intros e; reflexivity|].
  split; [reflexivity|]. intros u. apply scanWithAxe_logs.
Qed.

(** The target host does not resolve: HTTP 500 with [ok = false], no
    violations and the navigation error as [error]. *)
Example scenario_unresolved_host :
  exists resp,
    fst (POST unresolvedHost exampleRequest []) = Normal resp /\
    status resp = 500%Z /\
    ok (body resp) = false /\
    violations (body resp) = [] /\
    error (body resp) = Some (lit "page.goto: net::ERR_NAME_NOT_RESOLVED").
Proof. eexists. split; [vm_compute; reflexivity|]. cbn. auto. Qed.

(** The page holds an image without alternative text: HTTP 200 and a
    violation [image-alt], its missing [tags] defaulted. *)
Example scenario_image_alt :
  exists resp,
    fst (POST calmHost exampleRequest []) = Normal resp /\
    status resp = 200%Z /\
    ok (body resp) = true /\
    url (body resp) = Some (lit "https://example.com") /\
    map id (violations (body resp)) = [lit "image-alt"] /\
    map tags (violations (body resp)) = [[]].
Proof. eexists. split; [vm_compute; reflexivity|]. cbn. repeat split. Qed.

(** ** The result shaper *)

Lemma shapeNode_asRawNode n : shapeNode (asRawNode n) = n.
Proof. destruct n. reflexivity. Qed.

Lemma shapeViolation_asRawViolation v : shapeViolation (asRawViolation v) = v.
Proof.
  destruct v as [i im de he hu ta no]. unfold shapeViolation, asRawViolation.
  cbn. f_equal. rewrite map_map.
  induction no as [|n no IH]; cbn; [reflexivity|].
  rewrite shapeNode_asRawNode, IH. reflexivity.
Qed.

Lemma reshape_violations vs : map shapeViolation (map asRawViolation vs) = vs.
Proof.
  induction vs as [|v vs IH]; cbn [map]; [reflexivity|].
  rewrite shapeViolation_asRawViolation, IH. reflexivity.
Qed.

(** ** C7 *)

(** C7. The result shaper is total and idempotent on every well-formed
    engine result: the violation list it produces has the length of the
    input list (the empty list when [violations] is missing), holds at each
    position the shaped record of that position, so nothing is filtered,
    reordered or merged, has [tags] defaulted to the empty list where they
    are missing, and is left unchanged by shaping it again. *)
Theorem toScanResponse_total_and_idempotent :
  forall (now url : jsstring) (result : Axe.RunResult),
    let input := Axe.violations result ?? [] in
    let output := violations (toScanResponse now url result) in
    List.length output = List.length input /\
    map id output = map Axe.id input /\
    (forall i, nth_error output i = option_map shapeViolation (nth_error input i)) /\
    (forall v, In v input ->
       id (shapeViolation v) = Axe.id v /\
       impact (shapeViolation v) = Axe.impact v /\
       (Axe.tags v = None -> tags (shapeViolation v) = []) /\
       (forall t, Axe.tags v = Some t -> tags (shapeViolation v) = t) /\
       List.length (nodes (shapeViolation v)) = List.length (Axe.nodes v ?? [])) /\
    violations (toScanResponse now url (asRawResult (toScanResponse now url result)))
      = output /\
    toScanResponse now url (asRawResult (toScanResponse now url result))
      = toScanResponse now url result /\
    (forall f, toScanResponse_cast now url (Some result) f =
               (Normal (toScanResponse now url result), f)).
Proof.
  intros now url result input output. subst input output.
  assert (R : toScanResponse now url (asRawResult (toScanResponse now url result))
              = toScanResponse now url result).
  { unfold toScanResponse.
    cbn [violations asRawResult Axe.violations nullish].
    rewrite reshape_violations. reflexivity. }
  rewrite R. cbn [toScanResponse violations].
  split; [apply length_map|].
  split; [rewrite map_map; reflexivity|].
  split; [intros i; apply nth_error_map|].
  split.
  - intros v _. unfold shapeViolation. cbn.
    split; [reflexivity|]. split; [reflexivity|].
    split; [intros ->; reflexivity|].
    split; [intros t ->; reflexivity|]. apply length_map.
  - repeat split; reflexivity.
Qed.

(** ** C8 *)

(** C8, as amended.  Two invocations of the result shaper on the same url
    and the same engine result agree on [ok], [url], [violations] and
    [error]; the [timestamp] of each is the clock reading of that
    invocation, so the two responses are equal exactly when the clock reads
    the same both times. *)
Theorem toScanResponse_deterministic_up_to_timestamp :
  forall (now1 now2 page : jsstring) (result : Axe.RunResult),
    ok (toScanResponse now1 page result) = ok (toScanResponse now2 page result) /\
    url (toScanResponse now1 page result) = url (toScanResponse now2 page result) /\
    violations (toScanResponse now1 page result) =
      violations (toScanResponse now2 page result) /\
    error (toScanResponse now1 page result) =
      error (toScanResponse now2 page result) /\
    timestamp (toScanResponse now1 page result) = Some now1 /\
    timestamp (toScanResponse now2 page result) = Some now2 /\
    (toScanResponse now1 page result = toScanResponse now2 page result
     <-> now1 = now2).
Proof.
  intros now1 now2 page result. unfold toScanResponse. cbn.
  repeat (split; [reflexivity|]).
  split.
  - intros [= H]. exact H.
  - intros ->. reflexivity.
Qed.

(** C8 as stated fails: the same url and the same engine result, shaped one
    millisecond apart, give responses that differ in [timestamp]. *)
Lemma toScanResponse_depends_on_the_clock :
  toScanResponse (lit "2025-12-30T10:00:00.000Z") (lit "https://example.com") oneFinding
  <> toScanResponse (lit "2025-12-30T10:00:00.001Z") (lit "https://example.com") oneFinding.
Proof. intros H. vm_compute in H. discriminate. Qed.

(** ** C10 *)

Lemma filteredViolations_In lower data query m v :
  In v (ScanForm.filteredViolations lower (Some data) query m) <->
  In v (violations data) /\
  ScanForm.passesImpact m (option_map impact_key (impact v)) = true /\
  ScanForm.matchesQuery lower (lower (trim query)) v = true.
Proof.
  unfold ScanForm.filteredViolations. cbv zeta.
  rewrite filter_In, andb_true_iff. reflexivity.
Qed.

(** C10. In the impact filter of the client, a violation without [impact]
    is ranked as [minor]: it passes exactly when the threshold is [all],
    and for every violation list it is left out of the filtered list under
    the thresholds [moderate], [serious] and [critical]. *)
Theorem passesImpact_absent_impact_ranks_minor :
  forall (toLowerCase : jsstring -> jsstring),
    (forall m, ScanForm.passesImpact m None =
               ScanForm.passesImpact m (Some (lit "minor"))) /\
    ScanForm.get ScanForm.IMPACT_RANK (None ?? lit "minor") = Some 1%N /\
    (forall m, ScanForm.passesImpact m None = true <-> m = ScanForm.all) /\
    (forall data query m v,
        impact v = None ->
        In v (ScanForm.filteredViolations toLowerCase (Some data) query m) ->
        m = ScanForm.all) /\
    (forall data query v,
        impact v = None ->
        (In v (ScanForm.filteredViolations toLowerCase (Some data) query ScanForm.all) <->
         In v (violations data) /\
         ScanForm.matchesQuery toLowerCase (toLowerCase (trim query)) v = true)).
Proof.
  intros lower.
  assert (P : forall m, ScanForm.passesImpact m None = true <-> m = ScanForm.all).
  { intros m. destruct m; vm_compute; split; congruence. }
  split; [intros m; destruct m; reflexivity|].
  split; [reflexivity|]. split; [exact P|]. split.
  - intros data query m v Hv Hin. apply filteredViolations_In in Hin.
    destruct Hin as [_ [Hp _]]. rewrite Hv in Hp. apply P. exact Hp.
  - intros data query v Hv. rewrite filteredViolations_In, Hv. cbn. tauto.
Qed.

(* ===================================================================== *)
(** * Further properties of the code *)
(* ===================================================================== *)

(** ** normalizeUrl *)

Lemma jsstring_eqb_eq a b : jsstring_eqb a b = true <-> a = b.
Proof.
  unfold jsstring_eqb. destruct (list_eq_dec N.eq_dec a b); split;
    congruence.
Qed.

Lemma jsstring_eqb_refl a : jsstring_eqb a a = true.
Proof. apply jsstring_eqb_eq. reflexivity. Qed.

Lemma jsstring_eqb_neq a b : a <> b -> jsstring_eqb a b = false.
Proof.
  intros H. destruct (jsstring_eqb a b) eqn:E; [|reflexivity].
  apply jsstring_eqb_eq in E. contradiction.
Qed.

Lemma trimStart_blank s :
  forallb isStrWhiteSpaceChar s = true -> trimStart s = [].
Proof.
  induction s as [|c r IH]; simpl; [reflexivity|].
  destruct (isStrWhiteSpaceChar c); [exact IH | discriminate].
Qed.

Lemma carriesScheme_nonempty t : carriesScheme t -> t <> [].
Proof.
  intros [[p [rest [-> Hp]]] | [p [rest [-> Hp]]]];
    destruct p; discriminate.
Qed.

(** The normalizer always yields a string that starts with [http://] or
    [https://] in some letter case, has no whitespace around it and is not
    empty, whatever it is given. *)
Theorem normalizeUrl_always_carries_scheme :
  forall s : jsstring,
    carriesScheme (normalizeUrl s) /\
    trim (normalizeUrl s) = normalizeUrl s /\
    normalizeUrl s <> [].
Proof.
  intros s.
  assert (C : carriesScheme (normalizeUrl s)).
  { unfold normalizeUrl. cbv zeta.
    destruct (test scheme_re (trim s)) eqn:E; cbn [negb].
    - apply test_scheme_re, E.
    - apply test_scheme_re, test_scheme_re_https. }
  split; [exact C|]. split; [|apply carriesScheme_nonempty, C].
  unfold normalizeUrl. cbv zeta.
  destruct (test scheme_re (trim s)); cbn [negb].
  - apply trim_idem.
  - apply trim_after_prefix.
    + discriminate.
    + intros c Hc. simpl in Hc.
      repeat (destruct Hc as [<- | Hc]; [reflexivity|]). destruct Hc.
    + unfold trim. apply trimEnd_idem.
Qed.

(** An input that is empty or all whitespace is not refused: it becomes
    the bare prefix [https://]. *)
Theorem normalizeUrl_blank_input :
  forall s : jsstring,
    forallb isStrWhiteSpaceChar s = true ->
    normalizeUrl s = lit "https://".
Proof.
  intros s H. unfold normalizeUrl, trim. rewrite (trimStart_blank s H).
  reflexivity.
Qed.

Lemma normalizeUrl_blank_input_witness :
  normalizeUrl (lit "  ") = lit "https://".
Proof.
  apply (@normalizeUrl_blank_input (lit "  ")). reflexivity.
Defined.

(** ** The calls of one scan *)

Lemma bind_perform A B (c : call) (r : Completion A)
  (k : A -> Async Frame B) (f : Frame) :
  bind (perform c r) k f =
    match r with
    | Normal a =>
        k a {| browser := browser f;
               log := log f ++ [{| what := c; settled := true |}] |}
    | Throw e =>
        (Throw e,
         {| browser := browser f;
            log := log f ++ [{| what := c; settled := false |}] |})
    end.
Proof. unfold bind, perform. destruct r; reflexivity. Qed.

Lemma bind_set_browser B (b : option Browser) (k : unit -> Async Frame B)
  (f : Frame) :
  bind (set_browser b) k f = k tt {| browser := b; log := log f |}.
Proof. reflexivity. Qed.

Lemma scan_try_events h t f c f' :
  scan_try h t f = (c, f') ->
  exists d,
    log f' = log f ++ d /\
    orderly t d /\
    (forall r, c = Normal r -> forallb settled d = true /\ List.length d = 10).
Proof.
  unfold scan_try. intros H.
  rewrite bind_perform in H. cbn [browser log] in H.
  destruct (launch h) as [b|]; [|finish_events H].
  rewrite bind_set_browser, bind_perform in H. cbn [browser log] in H.
  destruct (newContext h) as [ctx|]; [|finish_events H].
  rewrite bind_perform in H. cbn [browser log] in H.
  destruct (newPage h) as [p|]; [|finish_events H].
  rewrite bind_perform in H. cbn [browser log] in H.
  destruct (setDefaultTimeout h); [|finish_events H].
  rewrite bind_perform in H. cbn [browser log] in H.
  destruct (setDefaultNavigationTimeout h); [|finish_events H].
  rewrite bind_perform in H. cbn [browser log] in H.
  destruct (goto h t); [|finish_events H].
  rewrite bind_perform in H. cbn [browser log] in H.
  destruct (waitForTimeout h); [|finish_events H].
  rewrite bind_perform in H. cbn [browser log] in H.
  destruct (cwd h) as [d|]; [|finish_events H].
  cbv zeta in H. rewrite bind_perform in H. cbn [browser log] in H.
  destruct (addScriptTag h _); [|finish_events H].
  rewrite bind_perform in H. cbn [browser log] in H.
  destruct (evaluate h) as [[r|]|]; finish_events H.
Qed.

(** The log of an invocation: what the [try] block logged, then the close
    of the browser if one was launched. *)
Lemma scanWithAxe_log h url w :
  snd (scanWithAxe h url w) =
    log (snd (scan_try h (normalizeUrl url) {| browser := None; log := w |}))
    ++ match launch h with
       | Normal b => [closeEvent b (isNormal (close h))]
       | Throw _ => []
       end.
Proof.
  unfold scanWithAxe. cbv zeta. set (t := normalizeUrl url).
  set (f0 := {| browser := None; log := w |}).
  destruct (scan_try_frame h t f0) as [d [_ [_ Hf]]].
  unfold try_catch_finally.
  destruct (scan_try h t f0) as [c f1]. cbn [snd] in *. subst f1.
  unfold scan_catch, scan_finally, bind, get_browser, perform, ret.
  destruct c as [r|e]; destruct (launch h) as [b|e0];
    cbn [browser log isNormal fst snd];
    try (destruct (close h) as [[]|e1]); cbn [snd log isNormal];
    rewrite ?app_nil_r; reflexivity.
Qed.

(** The outcomes that the [try] block logs are the answers of the host up
    to the first failure, and every call is made on the handle that the
    host gave out. *)
Lemma scan_try_answers h t f c f' :
  scan_try h t f = (c, f') ->
  exists d,
    log f' = log f ++ d /\
    map settled d = untilFirstFailure (answers h t) /\
    Forall (onHandle h) d.
Proof.
  unfold scan_try, answers. intros H.
  rewrite bind_perform in H. cbn [browser log] in H.
  destruct (launch h) as [b|] eqn:El; [|finish_answers H].
  rewrite bind_set_browser, bind_perform in H. cbn [browser log] in H.
  destruct (newContext h) as [ctx|] eqn:Ec; [|finish_answers H].
  rewrite bind_perform in H. cbn [browser log] in H.
  destruct (newPage h) as [p|] eqn:Ep; [|finish_answers H].
  rewrite bind_perform in H. cbn [browser log] in H.
  destruct (setDefaultTimeout h); [|finish_answers H].
  rewrite bind_perform in H. cbn [browser log] in H.
  destruct (setDefaultNavigationTimeout h); [|finish_answers H].
  rewrite bind_perform in H. cbn [browser log] in H.
  destruct (goto h t); [|finish_answers H].
  rewrite bind_perform in H. cbn [browser log] in H.
  destruct (waitForTimeout h); [|finish_answers H].
  rewrite bind_perform in H. cbn [browser log] in H.
  destruct (cwd h) as [d|]; [|finish_answers H].
  cbv zeta in H. cbv beta iota. rewrite bind_perform in H. cbn [browser log] in H.
  destruct (addScriptTag h _); [|finish_answers H].
  rewrite bind_perform in H. cbn [browser log] in H.
  destruct (evaluate h) as [[r|]|]; finish_answers H.
Qed.

Lemma untilFirstFailure_length l : forall k,
  k < List.length (untilFirstFailure l) <->
  k < List.length l /\ forallb (fun a => a) (firstn k l) = true.
Proof.
  induction l as [|a l IH]; intros k.
  - rewrite firstn_nil. cbn. split; [lia|intros [H _]; lia].
  - destruct a; destruct k; cbn [untilFirstFailure List.length firstn forallb andb].
    + split; [intros _; split; [lia|reflexivity]|lia].
    + rewrite <- !Nat.succ_lt_mono. apply IH.
    + split; [intros _; split; [lia|reflexivity]|lia].
    + split; [lia|intros [_ H]; discriminate].
Qed.

Lemma untilFirstFailure_all l :
  forallb (fun a => a) (untilFirstFailure l) = true -> untilFirstFailure l = l.
Proof.
  induction l as [|a l IH]; [reflexivity|].
  destruct a; cbn [untilFirstFailure forallb andb]; [|discriminate].
  intros H. rewrite (IH H). reflexivity.
Qed.

Lemma forallb_map_settled d :
  forallb (fun a => a) (map settled d) = forallb settled d.
Proof. induction d as [|e d IH]; cbn; [reflexivity|]. rewrite IH. reflexivity. Qed.

(** [scanWithAxe] makes its calls in the order of its text, each once and
    each on the handle that the call before gave out.  The [try] block
    goes on for as long as its calls succeed and stops at the first that
    fails: its call number [k] is made exactly when the [k] calls before it
    all succeeded, so on a host where nothing fails all ten are made, and
    the outcomes in the log are the answers of the host up to the first
    failure.  After the [try] block only [browser.close()] follows, if a
    browser was launched.  A response with [ok = true] is returned only
    after all ten calls succeeded. *)
Theorem scanWithAxe_stops_at_first_failure :
  forall (h : Host) (url : jsstring) (w : World),
    exists body closing,
      snd (scanWithAxe h url w) = w ++ body ++ closing /\
      map callIndex (map what body) = seq 0 (List.length body) /\
      1 <= List.length body <= 10 /\
      map settled body = untilFirstFailure (answers h (normalizeUrl url)) /\
      (forall k,
          k < List.length body <->
          k < 10 /\
          forallb (fun a => a) (firstn k (answers h (normalizeUrl url))) = true) /\
      forallb settled (removelast body) = true /\
      (forallb settled body = true -> List.length body = 10) /\
      Forall (onHandle h) (body ++ closing) /\
      closing = match launch h with
                | Normal b => [closeEvent b (isNormal (close h))]
                | Throw _ => []
                end /\
      (forall r, fst (scanWithAxe h url w) = Normal r -> ok r = true ->
                 forallb settled body = true /\ List.length body = 10).
Proof.
  intros h url w. set (t := normalizeUrl url).
  set (f0 := {| browser := None; log := w |}).
  pose proof (scan_try_completion h t f0) as Hc.
  pose proof (scanWithAxe_log h url w) as Hlog. fold t f0 in Hlog.
  destruct (scan_try h t f0) as [c f1] eqn:E. cbn [fst snd] in Hc, Hlog.
  destruct (scan_try_events h t f0 E) as [d [Hl [[Ho [Hn [Hs _]]] Hok]]].
  destruct (scan_try_answers h t f0 E) as [d' [Hl' [Ha Hh]]].
  assert (d' = d) by (rewrite Hl in Hl'; exact (app_inv_head _ _ _ (eq_sym Hl'))).
  subst d'.
  assert (Hlen : List.length d = List.length (untilFirstFailure (answers h t)))
    by (rewrite <- Ha, length_map; reflexivity).
  exists d. eexists. split.
  { rewrite Hlog, Hl. cbn [log f0]. rewrite <- app_assoc. reflexivity. }
  split; [exact Ho|]. split; [exact Hn|]. split; [exact Ha|].
  split; [intros k; rewrite Hlen; apply untilFirstFailure_length|].
  split; [exact Hs|].
  split.
  { intros Hall. rewrite <- forallb_map_settled, Ha in Hall.
    rewrite Hlen, (untilFirstFailure_all _ Hall). reflexivity. }
  split.
  { apply Forall_app. split; [exact Hh|].
    destruct (launch h) as [b|e] eqn:El;
      repeat first [apply Forall_nil | apply Forall_cons].
    unfold onHandle. cbn [what closeEvent]. exact El. }
  split; [reflexivity|].
  intros r Hr Hokr.
  apply scanWithAxe_returned in Hr. fold t in Hr.
  unfold expectedResponse in Hr.
  destruct (stages h t) as [res|e].
  - exact (Hok _ Hc).
  - subst r. discriminate Hokr.
Qed.


(** A response with [ok = true] is never made up: it is returned only when
    every stage succeeded and the audit handed back a result, and its
    violations are that result's, shaped one by one. *)
Theorem scanWithAxe_ok_comes_from_the_audit :
  forall (h : Host) (url : jsstring) (w : World) (r : ScanResponse),
    fst (scanWithAxe h url w) = Normal r ->
    ok r = true ->
    exists result,
      evaluate h = Normal (Some result) /\
      stages h (normalizeUrl url) = Normal result /\
      isNormal (goto h (normalizeUrl url)) = true /\
      r = toScanResponse (toISOString_now h) (normalizeUrl url) result /\
      violations r = map shapeViolation (Axe.violations result ?? []).
Proof.
  intros h url w r Hr Hok. apply scanWithAxe_returned in Hr.
  unfold expectedResponse in Hr.
  destruct (stages h (normalizeUrl url)) as [res|e] eqn:Es;
    [|subst r; discriminate Hok].
  exists res. subst r.
  unfold stages, andThen in Es.
  destruct (launch h); [|discriminate].
  destruct (newContext h); [|discriminate].
  destruct (newPage h); [|discriminate].
  destruct (setDefaultTimeout h); [|discriminate].
  destruct (setDefaultNavigationTimeout h); [|discriminate].
  destruct (goto h (normalizeUrl url)); [|discriminate].
  destruct (waitForTimeout h); [|discriminate].
  destruct (cwd h); [|discriminate].
  destruct (addScriptTag h _); [|discriminate].
  destruct (evaluate h) as [[res'|]|]; try discriminate.
  injection Es as ->. repeat split; reflexivity.
Qed.

Lemma scanWithAxe_ok_comes_from_the_audit_witness :
  exists result,
    evaluate calmHost = Normal (Some result) /\
    stages calmHost (normalizeUrl (lit "example.com")) = Normal result /\
    isNormal (goto calmHost (normalizeUrl (lit "example.com"))) = true /\
    toScanResponse (toISOString_now calmHost) (lit "https://example.com") oneFinding
      = toScanResponse (toISOString_now calmHost)
          (normalizeUrl (lit "example.com")) result /\
    violations (toScanResponse (toISOString_now calmHost)
                  (lit "https://example.com") oneFinding)
      = map shapeViolation (Axe.violations result ?? []).
Proof.
  apply (@scanWithAxe_ok_comes_from_the_audit calmHost (lit "example.com") []).
  - vm_compute. reflexivity.
  - reflexivity.
Defined.

(** ** The endpoint, for every request *)

Lemma expectedResponse_present h t : okErrorPresent (expectedResponse h t).
Proof.
  unfold okErrorPresent, expectedResponse.
  destruct (stages h t) as [res|e]; cbn.
  - split; [discriminate|reflexivity].
  - split; [|discriminate]. intros _. split; [reflexivity|discriminate].
Qed.

(** The three ways the handler answers. *)
Lemma POST_cases h req w :
  (exists e w', POST h req w = POST_catch e w') \/
  POST h req w = (Normal {| status := 400; body := missingUrl |}, w) \/
  (exists s r w',
      scanWithAxe h s w = (Normal r, w') /\
      POST h req w =
        (Normal {| status := if ok r then 200%Z else 500%Z; body := r |}, w')).
Proof.
  unfold POST, try_catch, POST_try, bind, await.
  destruct (req_json req) as [parsed|e]; [|left; eauto].
  destruct (destructure_url h parsed) as [u|e]; [|left; eauto].
  destruct (negb (truthy u) || negb (jsstring_eqb (typeof u) (lit "string")));
    [right; left; reflexivity|].
  destruct u as [[| | |s| |]|]; try (left; eexists; eexists; reflexivity).
  destruct (scanWithAxe h s w) as [[r|e] w'] eqn:E; [|left; eauto].
  right. right. exists s, r, w'. split; [exact E|].
  destruct (ok r); reflexivity.
Qed.

(** Whatever the request and the host do, the endpoint answers with status
    200, 400 or 500; the status is 200 exactly when the body has
    [ok = true]; a body with [ok = false] has no violations and carries an
    [error], one with [ok = true] carries none; and a 400 leaves the log as
    it was. *)
Theorem POST_status_follows_ok :
  forall (h : Host) (req : Request) (w : World),
    exists resp,
      fst (POST h req w) = Normal resp /\
      (status resp = 200 \/ status resp = 400 \/ status resp = 500)%Z /\
      (status resp = 200%Z <-> ok (body resp) = true) /\
      okErrorPresent (body resp) /\
      (status resp = 400%Z -> body resp = missingUrl /\ snd (POST h req w) = w).
Proof.
  intros h req w.
  destruct (POST_cases h req w) as [[e [w' ->]] | [-> | [s [r [w' [E ->]]]]]];
    eexists; (split; [reflexivity|]); cbn [POST_catch ret fst snd status body].
  - split; [auto|]. split; [split; discriminate|].
    split; [|discriminate]. split; [|discriminate].
    intros _. split; [reflexivity|discriminate].
  - split; [auto|]. split; [split; discriminate|]. split; [|auto].
    split; [|discriminate]. intros _. split; [reflexivity|discriminate].
  - pose proof (@scanWithAxe_returned h s w r) as Hret. rewrite E in Hret.
    specialize (Hret eq_refl).
    pose proof (expectedResponse_present h (normalizeUrl s)) as Hp.
    rewrite <- Hret in Hp.
    destruct (ok r) eqn:Eok.
    + split; [auto|]. split; [tauto|]. split; [exact Hp|discriminate].
    + split; [auto|]. split; [split; discriminate|].
      split; [exact Hp|discriminate].
Qed.

(** When the browser was launched and closing it is rejected, the endpoint
    answers 500 with the text of that rejection, whatever the audit found:
    a completed scan is lost with it. *)
Theorem POST_close_rejection_is_500 :
  forall (h : Host) (w : World) (s : jsstring) (b : Browser) (e : thrown),
    s <> [] ->
    launch h = Normal b ->
    close h = Throw e ->
    fst (POST h (ScanForm.scanRequest s) w) =
      Normal {| status := 500;
                body := {| ok := false;
                           url := None;
                           timestamp := None;
                           violations := [];
                           error := Some ((message e ?? lit "Scan failed")
                                          ++ [10%N] ++ (stack e ?? [])) |} |}.
Proof.
  intros h w s b e Hs Hl Hc.
  assert (Hr : fst (scanWithAxe h s w) = Throw e).
  { destruct (scanWithAxe_run h s w) as [d [_ ->]]. rewrite Hl, Hc. reflexivity. }
  unfold POST, try_catch, POST_try, bind, await, ScanForm.scanRequest.
  cbn [req_json destructure_url getMember].
  rewrite jsstring_eqb_refl.
  destruct s as [|c s']; [congruence|].
  cbn [truthy typeof negb orb]. rewrite jsstring_eqb_refl. cbn [negb].
  destruct (scanWithAxe h (c :: s') w) as [[r|e'] w']; cbn [fst] in Hr;
    [discriminate|]. injection Hr as ->. reflexivity.
Qed.

Lemma POST_close_rejection_is_500_witness :
  fst (POST closeRejectsHost (ScanForm.scanRequest (lit "example.com")) []) =
    Normal {| status := 500;
              body := {| ok := false;
                         url := None;
                         timestamp := None;
                         violations := [];
                         error := Some ((message (Error "browser.close: Connection closed")
                                           ?? lit "Scan failed")
                                        ++ [10%N]
                                        ++ (stack (Error "browser.close: Connection closed")
                                              ?? [])) |} |}.
Proof.
  apply (@POST_close_rejection_is_500 closeRejectsHost [] (lit "example.com") 1%N
           (Error "browser.close: Connection closed")).
  - discriminate.
  - reflexivity.
  - reflexivity.
Defined.

(** ** The impact filter, for every impact *)

Lemma get_IMPACT_RANK_unknown s :
  s <> lit "minor" -> s <> lit "moderate" -> s <> lit "serious" ->
  s <> lit "critical" ->
  ScanForm.get ScanForm.IMPACT_RANK s = None.
Proof.
  intros H1 H2 H3 H4. unfold ScanForm.IMPACT_RANK. cbn [ScanForm.get].
  rewrite !jsstring_eqb_neq by congruence. reflexivity.
Qed.

Lemma inherited_iff s :
  existsb (jsstring_eqb s) ScanForm.Object_prototype = true <->
  In s ScanForm.Object_prototype.
Proof.
  rewrite existsb_exists. split.
  - intros [x [Hin Hx]]. apply jsstring_eqb_eq in Hx. subst x. exact Hin.
  - intros Hin. exists s. split; [exact Hin|apply jsstring_eqb_refl].
Qed.

(** What the table gives for a name that is none of its four. *)
Lemma read_IMPACT_RANK_unknown s :
  s <> lit "minor" -> s <> lit "moderate" -> s <> lit "serious" ->
  s <> lit "critical" ->
  ScanForm.read ScanForm.IMPACT_RANK s =
    if existsb (jsstring_eqb s) ScanForm.Object_prototype
    then Some ScanForm.Inherited else None.
Proof.
  intros H1 H2 H3 H4. unfold ScanForm.read.
  rewrite (get_IMPACT_RANK_unknown H1 H2 H3 H4). reflexivity.
Qed.

(** The thresholds keep what their labels say: "Moderate+" keeps moderate,
    serious and critical, "Serious+" keeps serious and critical, "Critical
    only" keeps critical, and "All severities" keeps everything.  An impact
    that is none of the four names is kept under "All severities" only:
    the table gives nothing for it, which makes its rank 0, unless it is
    one of the names that the table inherits from [Object.prototype], for
    which the table gives what is inherited, and that is at least no
    threshold either. *)
Theorem passesImpact_keeps_what_the_label_says :
  (forall i : AxeImpact,
      (ScanForm.passesImpact ScanForm.moderate (Some (impact_key i)) = true
       <-> i = moderate \/ i = serious \/ i = critical) /\
      (ScanForm.passesImpact ScanForm.serious (Some (impact_key i)) = true
       <-> i = serious \/ i = critical) /\
      (ScanForm.passesImpact ScanForm.critical (Some (impact_key i)) = true
       <-> i = critical)) /\
  (forall impact : option jsstring,
      ScanForm.passesImpact ScanForm.all impact = true) /\
  (forall (s : jsstring) (m : ScanForm.MinImpact),
      s <> lit "minor" -> s <> lit "moderate" -> s <> lit "serious" ->
      s <> lit "critical" ->
      (ScanForm.passesImpact m (Some s) = true <-> m = ScanForm.all) /\
      (In s ScanForm.Object_prototype ->
       ScanForm.read ScanForm.IMPACT_RANK s = Some ScanForm.Inherited) /\
      (~ In s ScanForm.Object_prototype ->
       ScanForm.read ScanForm.IMPACT_RANK s ?? ScanForm.Number 0
         = ScanForm.Number 0)) /\
  ScanForm.passesImpact ScanForm.moderate (Some (lit "constructor")) = false.
Proof.
  split; [|split; [|split]].
  - intros i. destruct i; vm_compute; intuition congruence.
  - reflexivity.
  - intros s m H1 H2 H3 H4.
    pose proof (read_IMPACT_RANK_unknown H1 H2 H3 H4) as E.
    pose proof (inherited_iff s) as Hi.
    split; [|split].
    + unfold ScanForm.passesImpact. cbn [nullish]. rewrite E.
      destruct (existsb (jsstring_eqb s) ScanForm.Object_prototype);
        destruct m; vm_compute; split; congruence.
    + intros Hin. apply Hi in Hin. rewrite E, Hin. reflexivity.
    + intros Hn. rewrite E.
      destruct (existsb (jsstring_eqb s) ScanForm.Object_prototype);
        [exfalso; apply Hn, Hi; reflexivity|reflexivity].
  - vm_compute. reflexivity.
Qed.

Lemma filteredViolations_filter lower data query m :
  ScanForm.filteredViolations lower (Some data) query m =
    filter (fun v =>
              ScanForm.passesImpact m (option_map impact_key (impact v))
              && ScanForm.matchesQuery lower (lower (trim query)) v)
      (violations data).
Proof. reflexivity. Qed.

(** How a string passes the three thresholds, by what the table gives for
    it. *)
Lemma passesImpact_by_rank m s :
  ScanForm.passesImpact m (Some s) =
    match m with
    | ScanForm.all => true
    | ScanForm.moderate =>
        match ScanForm.read ScanForm.IMPACT_RANK s with
        | Some (ScanForm.Number n) => (2 <=? n)%N
        | _ => false
        end
    | ScanForm.serious =>
        match ScanForm.read ScanForm.IMPACT_RANK s with
        | Some (ScanForm.Number n) => (3 <=? n)%N
        | _ => false
        end
    | ScanForm.critical =>
        match ScanForm.read ScanForm.IMPACT_RANK s with
        | Some (ScanForm.Number n) => (4 <=? n)%N
        | _ => false
        end
    end.
Proof.
  unfold ScanForm.passesImpact. cbn [nullish].
  destruct m; [reflexivity| | |];
    destruct (ScanForm.read ScanForm.IMPACT_RANK s) as [[n|]|]; reflexivity.
Qed.

Lemma passesImpact_weaken m i :
  ScanForm.passesImpact ScanForm.critical i = true ->
  ScanForm.passesImpact m i = true.
Proof.
  destruct i as [s|]; [|vm_compute; discriminate].
  rewrite !passesImpact_by_rank.
  destruct (ScanForm.read ScanForm.IMPACT_RANK s) as [[n|]|];
    try discriminate.
  destruct m; rewrite ?N.leb_le; intros H; try reflexivity; lia.
Qed.

Lemma passesImpact_serious_moderate i :
  ScanForm.passesImpact ScanForm.serious i = true ->
  ScanForm.passesImpact ScanForm.moderate i = true.
Proof.
  destruct i as [s|]; [|vm_compute; discriminate].
  rewrite !passesImpact_by_rank.
  destruct (ScanForm.read ScanForm.IMPACT_RANK s) as [[n|]|];
    try discriminate.
  rewrite ?N.leb_le; lia.
Qed.

Lemma filter_length_le_pointwise (A : Type) (f g : A -> bool) l :
  (forall x, f x = true -> g x = true) ->
  List.length (filter f l) <= List.length (filter g l).
Proof.
  intros H. induction l as [|x l IH]; simpl; [lia|].
  destruct (f x) eqn:E.
  - rewrite (H x E). simpl. lia.
  - destruct (g x); simpl; lia.
Qed.

(** What the list shows is always taken from the violations of the
    response, in their order and without repeating any: it is never longer
    than they are, a stricter threshold shows a part of what a looser one
    shows, and with no response nothing is shown. *)
Theorem filteredViolations_narrows :
  forall (toLowerCase : jsstring -> jsstring) (data : ScanResponse)
         (query : jsstring) (m : ScanForm.MinImpact),
    let shown := ScanForm.filteredViolations toLowerCase (Some data) query in
    (exists keep, shown m = filter keep (violations data)) /\
    incl (shown m) (violations data) /\
    List.length (shown m) <= List.length (violations data) /\
    (NoDup (violations data) -> NoDup (shown m)) /\
    incl (shown ScanForm.critical) (shown ScanForm.serious) /\
    incl (shown ScanForm.serious) (shown ScanForm.moderate) /\
    incl (shown ScanForm.moderate) (shown ScanForm.all) /\
    ScanForm.filteredViolations toLowerCase None query m = [].
Proof.
  intros lower data query m shown. subst shown.
  assert (Hstep : forall m1 m2,
    (forall i, ScanForm.passesImpact m1 i = true ->
               ScanForm.passesImpact m2 i = true) ->
    incl (ScanForm.filteredViolations lower (Some data) query m1)
         (ScanForm.filteredViolations lower (Some data) query m2)).
  { intros m1 m2 H v. rewrite !filteredViolations_filter, !filter_In,
      !andb_true_iff. intros [Hin [Hp Hq]]. auto. }
  split; [eexists; apply filteredViolations_filter|].
  split; [intros v; rewrite filteredViolations_filter, filter_In; tauto|].
  split; [rewrite filteredViolations_filter; apply filter_length_le|].
  split; [intros Hnd; rewrite filteredViolations_filter; apply NoDup_filter, Hnd|].
  split; [apply Hstep; intros i; apply passesImpact_weaken|].
  split; [apply Hstep; intros i; apply passesImpact_serious_moderate|].
  split; [apply Hstep; reflexivity|reflexivity].
Qed.

(** ** The summary badges and the filter *)

Lemma passesImpact_critical_is v :
  ScanForm.passesImpact ScanForm.critical (option_map impact_key (impact v)) =
    ScanForm.impactIs (lit "critical") v.
Proof.
  unfold ScanForm.impactIs. destruct (impact v) as [[]|]; reflexivity.
Qed.

Lemma passesImpact_serious_is v :
  ScanForm.passesImpact ScanForm.serious (option_map impact_key (impact v)) =
    ScanForm.impactIs (lit "critical") v || ScanForm.impactIs (lit "serious") v.
Proof.
  unfold ScanForm.impactIs. destruct (impact v) as [[]|]; reflexivity.
Qed.

Lemma impactIs_exclusive v :
  ScanForm.impactIs (lit "critical") v = true ->
  ScanForm.impactIs (lit "serious") v = false.
Proof.
  unfold ScanForm.impactIs. destruct (impact v) as [[]|]; vm_compute; congruence.
Qed.

Lemma filter_length_orb (A : Type) (f g : A -> bool) l :
  (forall x, f x = true -> g x = false) ->
  List.length (filter (fun x => f x || g x) l) =
    List.length (filter f l) + List.length (filter g l).
Proof.
  intros H. induction l as [|x l IH]; simpl; [reflexivity|].
  destruct (f x) eqn:E; simpl.
  - rewrite (H x E). simpl. lia.
  - destruct (g x); simpl; lia.
Qed.

Lemma matchesQuery_blank lower query v :
  lower [] = [] ->
  forallb isStrWhiteSpaceChar query = true ->
  ScanForm.matchesQuery lower (lower (trim query)) v = true.
Proof.
  intros Hl Hq. unfold trim. rewrite (trimStart_blank query Hq).
  change (trimEnd []) with (@nil code_unit). rewrite Hl. reflexivity.
Qed.

(** With an empty or blank search box the badges and the list agree: "All
    severities" shows every violation, "Critical only" shows as many as the
    Critical badge counts, and "Serious+" as many as the Critical and
    Serious badges together; the two badges never exceed the total. *)
Theorem summary_agrees_with_filter :
  forall (toLowerCase : jsstring -> jsstring) (data : ScanResponse)
         (query : jsstring),
    toLowerCase [] = [] ->
    forallb isStrWhiteSpaceChar query = true ->
    exists sm,
      ScanForm.summary (Some data) = Some sm /\
      ScanForm.Summary.total sm = List.length (violations data) /\
      ScanForm.filteredViolations toLowerCase (Some data) query ScanForm.all
        = violations data /\
      List.length (ScanForm.filteredViolations toLowerCase (Some data) query
                     ScanForm.critical) = ScanForm.Summary.critical sm /\
      List.length (ScanForm.filteredViolations toLowerCase (Some data) query
                     ScanForm.serious)
        = ScanForm.Summary.critical sm + ScanForm.Summary.serious sm /\
      ScanForm.Summary.critical sm + ScanForm.Summary.serious sm
        <= ScanForm.Summary.total sm.
Proof.
  intros lower data query Hl Hq. eexists. split; [reflexivity|].
  cbn [ScanForm.Summary.total ScanForm.Summary.critical ScanForm.Summary.serious].
  assert (Hf : forall m,
    ScanForm.filteredViolations lower (Some data) query m =
      filter (fun v => ScanForm.passesImpact m (option_map impact_key (impact v)))
        (violations data)).
  { intros m. rewrite filteredViolations_filter. apply filter_ext.
    intros v. rewrite (@matchesQuery_blank lower query v Hl Hq).
    apply andb_true_r. }
  assert (Hs : List.length (filter (fun v =>
                  ScanForm.passesImpact ScanForm.serious
                    (option_map impact_key (impact v))) (violations data))
               = List.length (filter (ScanForm.impactIs (lit "critical")) (violations data))
                 + List.length (filter (ScanForm.impactIs (lit "serious")) (violations data))).
  { rewrite <- filter_length_orb by apply impactIs_exclusive.
    f_equal. apply filter_ext. apply passesImpact_serious_is. }
  split; [reflexivity|]. split; [|split; [|split]].
  - rewrite Hf. apply forallb_filter_id. apply forallb_forall. reflexivity.
  - rewrite Hf. f_equal. apply filter_ext. apply passesImpact_critical_is.
  - rewrite Hf. exact Hs.
  - rewrite <- Hs. apply filter_length_le.
Qed.

Lemma summary_agrees_with_filter_witness :
  exists sm,
    ScanForm.summary (Some (toScanResponse [] [] oneFinding)) = Some sm /\
    ScanForm.Summary.total sm =
      List.length (violations (toScanResponse [] [] oneFinding)) /\
    ScanForm.filteredViolations (map toAsciiLower)
      (Some (toScanResponse [] [] oneFinding)) (lit "  ") ScanForm.all
      = violations (toScanResponse [] [] oneFinding) /\
    List.length (ScanForm.filteredViolations (map toAsciiLower)
                   (Some (toScanResponse [] [] oneFinding)) (lit "  ")
                   ScanForm.critical) = ScanForm.Summary.critical sm /\
    List.length (ScanForm.filteredViolations (map toAsciiLower)
                   (Some (toScanResponse [] [] oneFinding)) (lit "  ")
                   ScanForm.serious)
      = ScanForm.Summary.critical sm + ScanForm.Summary.serious sm /\
    ScanForm.Summary.critical sm + ScanForm.Summary.serious sm
      <= ScanForm.Summary.total sm.
Proof.
  apply (@summary_agrees_with_filter (map toAsciiLower)
           (toScanResponse [] [] oneFinding) (lit "  ")).
  - reflexivity.
  - reflexivity.
Defined.

(** ** runScan *)

(** How [runScan] ends, by what [fetch] did. *)
Lemma runScan_run fetch st :
  runScan_outcome fetch st (snd (ScanForm.runScan fetch st)) /\
  fst (ScanForm.runScan fetch st) = Normal tt.
Proof.
  unfold runScan_outcome, ScanForm.runScan, ScanForm.runScan_try,
    ScanForm.runScan_catch, try_catch_finally, bind, await, throw,
    ScanForm.getState, ScanForm.setLoading, ScanForm.setError,
    ScanForm.setData, ScanForm.newError.
  cbn [ScanForm.State.url ScanForm.State.loading ScanForm.State.error
       ScanForm.State.data ScanForm.State.minImpact ScanForm.State.query].
  destruct (fetch (ScanForm.scanRequest (ScanForm.State.url st))) as [res|e];
    [|split; reflexivity].
  destruct (ScanForm.res_json res) as [json|e]; [|split; reflexivity].
  destruct (ScanForm.res_ok res), (ok json); cbn [negb orb message nullish];
    split; reflexivity.
Qed.

(** [runScan] never throws and always ends with [loading] off and the url
    and the two filters as they were.  What it leaves is either an error
    and no data, or data and no error; data is set only from a response
    with [res.ok] whose body has [ok = true], so a result shown before is
    discarded even when the new scan fails. *)
Theorem runScan_settles :
  forall (fetch : ScanForm.Fetch) (st : ScanForm.State.t),
    exists st',
      ScanForm.runScan fetch st = (Normal tt, st') /\
      ScanForm.State.loading st' = false /\
      ScanForm.State.url st' = ScanForm.State.url st /\
      ScanForm.State.query st' = ScanForm.State.query st /\
      ScanForm.State.minImpact st' = ScanForm.State.minImpact st /\
      ((ScanForm.State.data st' = None /\
        exists text, ScanForm.State.error st' = Some text) \/
       (ScanForm.State.error st' = None /\
        exists res json,
          fetch (ScanForm.scanRequest (ScanForm.State.url st)) = Normal res /\
          ScanForm.res_ok res = true /\
          ScanForm.res_json res = Normal json /\
          ok json = true /\
          ScanForm.State.data st' = Some json)).
Proof.
  intros fetch st. destruct (runScan_run fetch st) as [Ho Hn].
  destruct (ScanForm.runScan fetch st) as [c st']. cbn [fst snd] in *. subst c.
  exists st'. split; [reflexivity|]. unfold runScan_outcome in Ho.
  destruct (fetch (ScanForm.scanRequest (ScanForm.State.url st))) as [res|e].
  - destruct (ScanForm.res_json res) as [json|e] eqn:Ej.
    + destruct (ScanForm.res_ok res) eqn:Eo, (ok json) eqn:Ek;
        cbn [andb] in Ho; subst st'; cbn;
        repeat (split; [reflexivity|]);
        try (left; split; [reflexivity|]; eexists; reflexivity).
      right. split; [reflexivity|]. exists res, json. auto.
    + subst st'. cbn. repeat (split; [reflexivity|]).
      left. split; [reflexivity|]. eexists. reflexivity.
  - subst st'. cbn. repeat (split; [reflexivity|]).
    left. split; [reflexivity|]. eexists. reflexivity.
Qed.

(** The text [runScan] leaves as the error: the message of what [fetch] or
    [res.json()] was rejected with, or "Something went wrong" if it has
    none; and for a response that is not [res.ok] or whose body has
    [ok = false], the [error] of the body, or "Scan failed" if it has
    none; the error box is rendered unless that text is empty. *)
Theorem runScan_error_text :
  forall (fetch : ScanForm.Fetch) (st : ScanForm.State.t),
    (forall e,
        fetch (ScanForm.scanRequest (ScanForm.State.url st)) = Throw e ->
        ScanForm.State.error (snd (ScanForm.runScan fetch st)) =
          Some (message e ?? lit "Something went wrong")) /\
    (forall res e,
        fetch (ScanForm.scanRequest (ScanForm.State.url st)) = Normal res ->
        ScanForm.res_json res = Throw e ->
        ScanForm.State.error (snd (ScanForm.runScan fetch st)) =
          Some (message e ?? lit "Something went wrong")) /\
    (forall res json,
        fetch (ScanForm.scanRequest (ScanForm.State.url st)) = Normal res ->
        ScanForm.res_json res = Normal json ->
        ScanForm.res_ok res && ok json = false ->
        ScanForm.State.error (snd (ScanForm.runScan fetch st)) =
          Some (error json ?? lit "Scan failed") /\
        ScanForm.showsError (snd (ScanForm.runScan fetch st)) =
          negb (ScanForm.isEmpty (error json ?? lit "Scan failed"))).
Proof.
  intros fetch st. destruct (runScan_run fetch st) as [Ho _].
  unfold runScan_outcome in Ho.
  split; [|split].
  - intros e He. rewrite He in Ho. rewrite Ho. reflexivity.
  - intros res e Hf Hj. rewrite Hf, Hj in Ho. rewrite Ho. reflexivity.
  - intros res json Hf Hj Hb. rewrite Hf, Hj, Hb in Ho. rewrite Ho.
    split; [reflexivity|]. unfold ScanForm.showsError, settledWith.
    cbn [ScanForm.State.error].
    destruct (error json ?? lit "Scan failed"); reflexivity.
Qed.

(** ** The form against the endpoint *)

Lemma trim_nil : trim [] = [].
Proof. reflexivity. Qed.

Lemma POST_scanRequest h s w :
  s <> [] ->
  POST h (ScanForm.scanRequest s) w =
    match scanWithAxe h s w with
    | (Normal r, w') =>
        (Normal {| status := if ok r then 200%Z else 500%Z; body := r |}, w')
    | (Throw e, w') => POST_catch e w'
    end.
Proof.
  intros Hs.
  unfold POST, try_catch, POST_try, bind, await, ScanForm.scanRequest.
  cbn [req_json destructure_url getMember]. rewrite jsstring_eqb_refl.
  destruct s as [|c s']; [congruence|].
  cbn [truthy typeof negb orb]. rewrite jsstring_eqb_refl. cbn [negb].
  destruct (scanWithAxe h (c :: s') w) as [[r|e] w']; [|reflexivity].
  destruct (ok r); reflexivity.
Qed.

(** A click on the enabled Run scan button, answered by the endpoint: the
    request is never refused with 400; the form shows the results exactly
    when the scan returned a response with [ok = true], and then that
    response; when the scan returned [ok = false] it shows the error text
    of the response; and when the scan raised, the text the endpoint made
    of the rejection. *)
Theorem runScan_against_POST :
  forall (h : Host) (w : World) (st : ScanForm.State.t),
    ScanForm.runDisabled st = false ->
    let st' := snd (ScanForm.runScan (served h w) st) in
    (exists resp,
        fst (POST h (ScanForm.scanRequest (ScanForm.State.url st)) w) = Normal resp /\
        status resp <> 400%Z) /\
    match fst (scanWithAxe h (ScanForm.State.url st) w) with
    | Normal r =>
        if ok r
        then ScanForm.State.data st' = Some r /\ ScanForm.State.error st' = None
        else ScanForm.State.data st' = None /\
             ScanForm.State.error st' = Some (error r ?? lit "Scan failed")
    | Throw e =>
        ScanForm.State.data st' = None /\
        ScanForm.State.error st' =
          Some ((message e ?? lit "Scan failed") ++ [10%N] ++ (stack e ?? []))
    end.
Proof.
  intros h w st Hd st'. subst st'.
  assert (Hs : ScanForm.State.url st <> []).
  { unfold ScanForm.runDisabled in Hd. apply orb_false_iff in Hd.
    destruct Hd as [_ Hd]. intros E. rewrite E, trim_nil in Hd. discriminate. }
  destruct (runScan_run (served h w) st) as [Ho _]. rewrite Ho. clear Ho.
  unfold served. rewrite (POST_scanRequest h w Hs).
  destruct (scanWithAxe h (ScanForm.State.url st) w) as [[r|e] w'];
    cbn [fst POST_catch ret].
  - split; [eexists; split; [reflexivity|]; cbn; destruct (ok r); discriminate|].
    cbn [ScanForm.res_json ScanForm.res_ok status body statusOk].
    destruct (ok r); cbn; split; reflexivity.
  - split; [eexists; split; [reflexivity|]; discriminate|].
    cbn. split; reflexivity.
Qed.

Lemma runScan_against_POST_witness :
  (exists resp,
      fst (POST calmHost
             (ScanForm.scanRequest (ScanForm.State.url ScanForm.initialState)) [])
        = Normal resp /\
      status resp <> 400%Z) /\
  match fst (scanWithAxe calmHost (ScanForm.State.url ScanForm.initialState) []) with
  | Normal r =>
      if ok r
      then ScanForm.State.data
             (snd (ScanForm.runScan (served calmHost []) ScanForm.initialState))
             = Some r /\
           ScanForm.State.error
             (snd (ScanForm.runScan (served calmHost []) ScanForm.initialState))
             = None
      else ScanForm.State.data
             (snd (ScanForm.runScan (served calmHost []) ScanForm.initialState))
             = None /\
           ScanForm.State.error
             (snd (ScanForm.runScan (served calmHost []) ScanForm.initialState))
             = Some (error r ?? lit "Scan failed")
  | Throw e =>
      ScanForm.State.data
        (snd (ScanForm.runScan (served calmHost []) ScanForm.initialState)) = None /\
      ScanForm.State.error
        (snd (ScanForm.runScan (served calmHost []) ScanForm.initialState)) =
        Some ((message e ?? lit "Scan failed") ++ [10%N] ++ (stack e ?? []))
  end.
Proof.
  apply (@runScan_against_POST calmHost [] ScanForm.initialState).
  reflexivity.
Defined.

(** ** ThemeToggle *)

Lemma getItem_setItem_same key value s :
  ThemeToggle.getItem key (ThemeToggle.setItem key value s) = Some value.
Proof.
  induction s as [|[k v] s IH]; cbn [ThemeToggle.setItem ThemeToggle.getItem].
  - rewrite jsstring_eqb_refl. reflexivity.
  - destruct (jsstring_eqb k key) eqn:E; cbn [ThemeToggle.getItem]; rewrite E.
    + reflexivity.
    + exact IH.
Qed.

Lemma getItem_setItem_other key key' value s :
  key' <> key ->
  ThemeToggle.getItem key' (ThemeToggle.setItem key value s) =
    ThemeToggle.getItem key' s.
Proof.
  intros Hne.
  induction s as [|[k v] s IH]; cbn [ThemeToggle.setItem ThemeToggle.getItem].
  - rewrite jsstring_eqb_neq by congruence. reflexivity.
  - destruct (jsstring_eqb k key) eqn:E; cbn [ThemeToggle.getItem].
    + apply jsstring_eqb_eq in E. subst k.
      rewrite jsstring_eqb_neq by congruence. reflexivity.
    + destruct (jsstring_eqb k key'); [reflexivity|exact IH].
Qed.

Lemma toggleTheme_step st win :
  ThemeToggle.isTheme (ThemeToggle.theme (fst (ThemeToggle.toggleTheme st win))) /\
  ThemeToggle.getItem (lit "theme")
    (ThemeToggle.localStorage (snd (ThemeToggle.toggleTheme st win)))
    = Some (ThemeToggle.theme (fst (ThemeToggle.toggleTheme st win))) /\
  ThemeToggle.dataset_theme (snd (ThemeToggle.toggleTheme st win))
    = Some (ThemeToggle.theme (fst (ThemeToggle.toggleTheme st win))) /\
  ThemeToggle.mounted (fst (ThemeToggle.toggleTheme st win))
    = ThemeToggle.mounted st.
Proof.
  unfold ThemeToggle.toggleTheme.
  cbn [fst snd ThemeToggle.theme ThemeToggle.localStorage
       ThemeToggle.dataset_theme ThemeToggle.mounted].
  split; [|split; [|split]]; try reflexivity.
  - unfold ThemeToggle.isTheme.
    destruct (jsstring_eqb (ThemeToggle.theme st) (lit "dark")); auto.
  - apply getItem_setItem_same.
Qed.

Lemma useEffect_mount_step st win :
  ThemeToggle.dataset_theme (snd (ThemeToggle.useEffect_mount st win))
    = Some (ThemeToggle.theme (fst (ThemeToggle.useEffect_mount st win))) /\
  ThemeToggle.mounted (fst (ThemeToggle.useEffect_mount st win)) = true.
Proof.
  unfold ThemeToggle.useEffect_mount.
  destruct (ThemeToggle.getItem (lit "theme") (ThemeToggle.localStorage win))
    as [[|c r]|]; split; reflexivity.
Qed.

Lemma clicks_invariant n : forall st win,
  ThemeToggle.dataset_theme win = Some (ThemeToggle.theme st) ->
  ThemeToggle.dataset_theme (snd (ThemeToggle.clicks n st win))
    = Some (ThemeToggle.theme (fst (ThemeToggle.clicks n st win))) /\
  ThemeToggle.mounted (fst (ThemeToggle.clicks n st win)) = ThemeToggle.mounted st /\
  (1 <= n ->
   ThemeToggle.getItem (lit "theme")
     (ThemeToggle.localStorage (snd (ThemeToggle.clicks n st win)))
     = Some (ThemeToggle.theme (fst (ThemeToggle.clicks n st win))) /\
   ThemeToggle.isTheme (ThemeToggle.theme (fst (ThemeToggle.clicks n st win)))).
Proof.
  induction n as [|n IH]; intros st win Hd.
  - cbn. split; [exact Hd|]. split; [reflexivity|]. lia.
  - cbn [ThemeToggle.clicks].
    destruct (toggleTheme_step st win) as [H1 [H2 [H3 H4]]].
    destruct (ThemeToggle.toggleTheme st win) as [st1 win1].
    cbn [fst snd] in *.
    destruct (IH st1 win1 H3) as [G1 [G2 G3]].
    split; [exact G1|]. split; [congruence|]. intros _.
    destruct n as [|n]; [cbn; auto|]. apply G3. lia.
Qed.

(** A click leaves the state, [localStorage] and the document in
    agreement on a theme that is "dark" or "light", whatever the theme was
    before, and touches no other key of [localStorage]. *)
Theorem toggleTheme_keeps_all_three_in_step :
  forall (st : ThemeToggle.State) (win : ThemeToggle.Window),
    let st' := fst (ThemeToggle.toggleTheme st win) in
    let win' := snd (ThemeToggle.toggleTheme st win) in
    ThemeToggle.isTheme (ThemeToggle.theme st') /\
    ThemeToggle.getItem (lit "theme") (ThemeToggle.localStorage win')
      = Some (ThemeToggle.theme st') /\
    ThemeToggle.dataset_theme win' = Some (ThemeToggle.theme st') /\
    (forall key, key <> lit "theme" ->
       ThemeToggle.getItem key (ThemeToggle.localStorage win')
       = ThemeToggle.getItem key (ThemeToggle.localStorage win)) /\
    ThemeToggle.mounted st' = ThemeToggle.mounted st /\
    (ThemeToggle.theme st' = lit "light" <-> ThemeToggle.theme st = lit "dark").
Proof.
  intros st win st' win'. subst st' win'. unfold ThemeToggle.toggleTheme.
  cbn [fst snd ThemeToggle.theme ThemeToggle.localStorage
       ThemeToggle.dataset_theme ThemeToggle.mounted].
  split; [|split; [|split; [|split; [|split]]]].
  - unfold ThemeToggle.isTheme.
    destruct (jsstring_eqb (ThemeToggle.theme st) (lit "dark")); auto.
  - apply getItem_setItem_same.
  - reflexivity.
  - intros key Hk. apply getItem_setItem_other. exact Hk.
  - reflexivity.
  - destruct (jsstring_eqb (ThemeToggle.theme st) (lit "dark")) eqn:E.
    + apply jsstring_eqb_eq in E. tauto.
    + split; [discriminate|]. intros H. apply jsstring_eqb_eq in H. congruence.
Qed.

(** Two clicks bring back the theme exactly when it was "dark" or "light":
    a theme of any other name, taken over from [localStorage], is left for
    good by the first click. *)
Theorem toggleTheme_twice :
  forall (st : ThemeToggle.State) (win : ThemeToggle.Window),
    ThemeToggle.theme (fst (ThemeToggle.clicks 2 st win)) = ThemeToggle.theme st
    <-> ThemeToggle.isTheme (ThemeToggle.theme st).
Proof.
  intros st win. unfold ThemeToggle.isTheme.
  cbn [ThemeToggle.clicks ThemeToggle.toggleTheme fst ThemeToggle.theme].
  destruct (jsstring_eqb (ThemeToggle.theme st) (lit "dark")) eqn:E.
  - apply jsstring_eqb_eq in E. rewrite E. cbn. tauto.
  - change (jsstring_eqb (lit "dark") (lit "dark")) with true. cbv iota.
    split.
    + intros <-. right. reflexivity.
    + intros [H | H]; [|symmetry; exact H].
      apply jsstring_eqb_eq in H. congruence.
Qed.

(** The choice made by a click survives a reload: mounting the component
    again on the window the click left gives the chosen theme, whatever the
    system preference is, and writes nothing to [localStorage]. *)
Theorem toggleTheme_survives_reload :
  forall (st st0 : ThemeToggle.State) (win : ThemeToggle.Window),
    let st' := fst (ThemeToggle.toggleTheme st win) in
    let win' := snd (ThemeToggle.toggleTheme st win) in
    ThemeToggle.theme (fst (ThemeToggle.useEffect_mount st0 win'))
      = ThemeToggle.theme st' /\
    ThemeToggle.mounted (fst (ThemeToggle.useEffect_mount st0 win')) = true /\
    ThemeToggle.localStorage (snd (ThemeToggle.useEffect_mount st0 win'))
      = ThemeToggle.localStorage win' /\
    ThemeToggle.dataset_theme (snd (ThemeToggle.useEffect_mount st0 win'))
      = Some (ThemeToggle.theme st').
Proof.
  intros st st0 win st' win'. subst st' win'.
  unfold ThemeToggle.useEffect_mount, ThemeToggle.toggleTheme.
  cbn [fst snd ThemeToggle.localStorage ThemeToggle.theme].
  rewrite getItem_setItem_same.
  destruct (jsstring_eqb (ThemeToggle.theme st) (lit "dark"));
    cbn; repeat split; reflexivity.
Qed.

(** The first render after mounting: a stored theme that is not empty is
    taken over as it is, without a check that it names a theme; with none
    stored, or the empty string, the system preference decides.  Mounting
    sets the theme on the document, shows the button, and leaves
    [localStorage] untouched. *)
Theorem useEffect_mount_reads_the_stored_theme :
  forall (st : ThemeToggle.State) (win : ThemeToggle.Window),
    let st' := fst (ThemeToggle.useEffect_mount st win) in
    let win' := snd (ThemeToggle.useEffect_mount st win) in
    let stored := ThemeToggle.getItem (lit "theme") (ThemeToggle.localStorage win) in
    (forall t, stored = Some t -> t <> [] -> ThemeToggle.theme st' = t) /\
    (stored = None \/ stored = Some [] ->
     ThemeToggle.theme st' =
       if ThemeToggle.prefersLight win then lit "light" else lit "dark") /\
    ThemeToggle.dataset_theme win' = Some (ThemeToggle.theme st') /\
    ThemeToggle.rendersButton st' = true /\
    ThemeToggle.localStorage win' = ThemeToggle.localStorage win /\
    ThemeToggle.theme st' <> [].
Proof.
  intros st win st' win' stored. subst st' win' stored.
  unfold ThemeToggle.useEffect_mount, ThemeToggle.rendersButton.
  destruct (ThemeToggle.getItem (lit "theme") (ThemeToggle.localStorage win))
    as [[|c r]|]; cbn [fst snd ThemeToggle.theme ThemeToggle.dataset_theme
                       ThemeToggle.mounted ThemeToggle.localStorage].
  - split; [intros t [= <-] H; congruence|]. split; [reflexivity|].
    repeat (split; [reflexivity|]).
    destruct (ThemeToggle.prefersLight win); discriminate.
  - split; [intros t [= <-] _; reflexivity|].
    split; [intros [H|H]; discriminate|].
    repeat (split; [reflexivity|]). discriminate.
  - split; [discriminate|]. split; [reflexivity|].
    repeat (split; [reflexivity|]).
    destruct (ThemeToggle.prefersLight win); discriminate.
Qed.

(** After mounting and any number of clicks the document carries the theme
    of the state, and from the first click on so does [localStorage]. *)
Theorem clicks_keep_document_and_state_in_step :
  forall (n : nat) (st0 : ThemeToggle.State) (win0 : ThemeToggle.Window),
    let mountedAt := ThemeToggle.useEffect_mount st0 win0 in
    let st := fst (ThemeToggle.clicks n (fst mountedAt) (snd mountedAt)) in
    let win := snd (ThemeToggle.clicks n (fst mountedAt) (snd mountedAt)) in
    ThemeToggle.dataset_theme win = Some (ThemeToggle.theme st) /\
    ThemeToggle.rendersButton st = true /\
    (1 <= n ->
     ThemeToggle.getItem (lit "theme") (ThemeToggle.localStorage win)
       = Some (ThemeToggle.theme st) /\
     ThemeToggle.isTheme (ThemeToggle.theme st)).
Proof.
  intros n st0 win0 mountedAt st win. subst st win mountedAt.
  destruct (useEffect_mount_step st0 win0) as [Hd Hm].
  destruct (clicks_invariant n _ _ Hd) as [G1 [G2 G3]].
  split; [exact G1|]. split; [|exact G3].
  unfold ThemeToggle.rendersButton. congruence.
Qed.
